(** * Paper plagiarism checker: tokenizer and cosine-similarity engine

    A shallow embedding of [main.py]: [preprocess_text],
    [calculate_cosine_similarity] and [calculate_similarity].

    - Python [int] is [Z] (arbitrary precision, exact).
    - Python [float] is IEEE-754 binary64, taken from the standard library's
      executable specification [spec_float] at [prec = 53], [emax = 1024]
      (the semantics Rocq's primitive floats are specified against).
    - A raised exception is a value of [exn] in the result type [py].
    - A [dict] with hashable keys is a [gmap]; a [set] is a [gset]. *)

From Stdlib Require Import ZArith List Lia Bool.
From Stdlib Require Import Reals Lra Psatz.
From Stdlib Require Import Floats.
From stdpp Require Import base option list gmap sets strings.

Local Open Scope Z_scope.

(* ===================================================================== *)
(** ** Exceptions *)

Inductive exn : Type :=
| OverflowError
| ValueError
| ZeroDivisionError.

Inductive py (A : Type) : Type :=
| Ok (a : A)
| Raise (e : exn).
Arguments Ok {A} a.
Arguments Raise {A} e.

#[global] Instance py_ret : MRet py := fun _ a => Ok a.

#[global] Instance py_bind : MBind py := fun _ _ k c =>
  match c with
  | Ok a => k a
  | Raise e => Raise e
  end.

(* ===================================================================== *)
(** ** Python floats *)

Module PyFloat.

Abbreviation t := spec_float.

Definition zero : t := S754_zero false.
Definition one : t := S754_finite false 4503599627370496 (-52).

(** [float(n)] for an [int]: round to nearest, ties to even;
    [OverflowError: int too large to convert to float] past the range. *)
Definition of_int (n : Z) : py t :=
  match binary_normalize prec emax n 0 false with
  | S754_infinity _ => Raise OverflowError
  | f => Ok f
  end.

Definition mul (x y : t) : t := SF64mul x y.

Definition eqb (x y : t) : bool := SFeqb x y.

(** [x / y] on floats: [ZeroDivisionError] when the divisor is zero. *)
Definition div (x y : t) : py t :=
  if eqb y zero then Raise ZeroDivisionError else Ok (SF64div x y).

(** [math.sqrt] on a float: [ValueError: math domain error] below zero. *)
Definition sqrt (x : t) : py t :=
  match x with
  | S754_finite true _ _ | S754_infinity true => Raise ValueError
  | _ => Ok (SF64sqrt x)
  end.

(** The exact value of a finite float as a fraction [n / 2^k]. *)
Definition to_frac (x : t) : option (Z * Z) :=
  match x with
  | S754_zero _ => Some (0, 1)
  | S754_finite s m e =>
      let n := if s then Z.neg m else Z.pos m in
      if 0 <=? e then Some (n * 2 ^ e, 1) else Some (n, 2 ^ (- e))
  | _ => None
  end.

End PyFloat.

(* ===================================================================== *)
(** ** The similarity engine *)

(** [math.sqrt(n)] for an [int] argument: the argument is first converted
    to a float. *)
Definition math_sqrt (n : Z) : py PyFloat.t :=
  x ← PyFloat.of_int n; PyFloat.sqrt x.

(** [sum(...)] over ints, starting from 0 and adding left to right. *)
Definition py_sum (l : list Z) : Z := foldl Z.add 0 l.

(** The sum of a list of ints does not depend on the order of the list. *)
#[global] Instance py_sum_Permutation : Proper ((≡ₚ) ==> (=)) py_sum.
Proof.
  assert (Hacc : forall (l : list Z) (a : Z),
    foldl Z.add a l = a + foldl Z.add 0 l).
  { induction l as [|x l IH]; intros a; simpl; [lia|].
    rewrite (IH (a + x)), (IH (0 + x)). lia. }
  intros l1 l2 Hp. unfold py_sum.
  induction Hp as [|x l1 l2 _ IH|x y l|l1 l2 l3 _ IH1 _ IH2]; simpl.
  - done.
  - rewrite (Hacc l1), (Hacc l2). lia.
  - rewrite (Hacc l (0 + y + x)), (Hacc l (0 + x + y)). lia.
  - lia.
Qed.

(** [v1 * v2 for v1, v2 in zip(vector1, vector2)] *)
Definition products (vector1 vector2 : list Z) : list Z :=
  (fun p : Z * Z => fst p * snd p) <$> zip vector1 vector2.

(** [v * v for v in vector] *)
Definition squares (vector : list Z) : list Z :=
  (fun v : Z => v * v) <$> vector.

(** [sys.maxsize]: no list or string is longer. *)
Definition sys_maxsize : Z := 2 ^ 63 - 1.

Section Cosine.
Context {K : Type} `{Countable K}.

(** [vec.get(word, 0)] *)
Definition get (vec : gmap K Z) (word : K) : Z := default 0 (vec !! word).

(** The body of [calculate_cosine_similarity] once the iteration order of
    the set [all_words] is fixed to the list [words]. *)
Definition cosine_over (words : list K) (vec1 vec2 : gmap K Z)
  : py PyFloat.t :=
  let vector1 := get vec1 <$> words in
  let vector2 := get vec2 <$> words in
  let dot_product := py_sum (products vector1 vector2) in
  magnitude1 ← math_sqrt (py_sum (squares vector1));
  magnitude2 ← math_sqrt (py_sum (squares vector2));
  if PyFloat.eqb magnitude1 PyFloat.zero || PyFloat.eqb magnitude2 PyFloat.zero
  then Ok PyFloat.zero
  else
    d ← PyFloat.of_int dot_product;
    PyFloat.div d (PyFloat.mul magnitude1 magnitude2).

Definition all_words (vec1 vec2 : gmap K Z) : gset K :=
  dom vec1 ∪ dom vec2.

Definition calculate_cosine_similarity (vec1 vec2 : gmap K Z)
  : py PyFloat.t :=
  cosine_over (elements (all_words vec1 vec2)) vec1 vec2.

(** [Counter(words)]: one pass, [self[elem] = self.get(elem, 0) + 1]. *)
Definition Counter (words : list K) : gmap K Z :=
  foldl (fun m w => <[ w := get m w + 1 ]> m) ∅ words.

(** *** The quantities of the specification *)

(** Dot product: the sum over the union vocabulary of the products of the
    two counts, a missing token counting 0. *)
Definition dot (a b : gmap K Z) : Z :=
  set_fold (fun w acc => get a w * get b w + acc) 0 (dom a ∪ dom b).

(** Sum of the squares of a vector's own entries. *)
Definition sum_squares (a : gmap K Z) : Z :=
  map_fold (fun _ c acc => c * c + acc) 0 a.

(** Number of tokens counted by a frequency vector. *)
Definition total (a : gmap K Z) : Z :=
  map_fold (fun _ c acc => c + acc) 0 a.

(** Number of occurrences of a token in a token sequence. *)
Definition occurrences (w : K) (ws : list K) : Z :=
  Z.of_nat (length (filter (fun x => x = w) ws)).

(** Euclidean norm, in double precision. *)
Definition norm (a : gmap K Z) : py PyFloat.t := math_sqrt (sum_squares a).

(** A frequency vector counts the occurrences of tokens in a token
    sequence: no count is negative and the counts add up to the length of
    a list, which [sys.maxsize] bounds. *)
Definition frequency_vector (a : gmap K Z) : Prop :=
  map_Forall (fun _ c => 0 <= c) a /\ total a <= sys_maxsize.

End Cosine.

(* ===================================================================== *)
(** ** The tokenizer and the orchestration *)

(** A Python [str] is a sequence of Unicode code points. *)
Definition codepoint : Type := N.
Definition pystr : Type := list codepoint.

(** [re.sub(pattern, repl, text)] for a pattern that is one character
    class: scanning left to right, every character of the class is a match
    and is replaced by [repl]; the others are copied. *)
Fixpoint re_sub_class (cls : codepoint -> bool) (repl text : pystr) : pystr :=
  match text with
  | [] => []
  | c :: rest =>
      if cls c then repl ++ re_sub_class cls repl rest
      else c :: re_sub_class cls repl rest
  end.

Section Tokenizer.

(** The interpreter's Unicode tables, as [re] consults them for [str]
    patterns. *)
Variable unicode_isalnum : codepoint -> bool.
Variable unicode_isspace : codepoint -> bool.

(** jieba's module-level tokenizer: it loads its dictionary on first use and
    keeps caches, so a call takes and returns the tokenizer's state. *)
Variable jieba_state : Type.
Variable jieba_cut : pystr -> jieba_state -> list pystr * jieba_state.

(** [\w] *)
Definition word_char (c : codepoint) : bool :=
  unicode_isalnum c || (c =? 95)%N.

(** [\s] *)
Definition space_char (c : codepoint) : bool := unicode_isspace c.

(** [[^\w\s]] *)
Definition not_word_nor_space (c : codepoint) : bool :=
  negb (word_char c || space_char c).

Definition preprocess_text (text : pystr) (st : jieba_state)
  : list pystr * jieba_state :=
  let text := re_sub_class not_word_nor_space [] text in
  let (words, st) := jieba_cut text st in
  (words, st).

Definition calculate_similarity (original_text copied_text : pystr)
    (st : jieba_state) : py PyFloat.t * jieba_state :=
  let (original_words, st) := preprocess_text original_text st in
  let (copied_words, st) := preprocess_text copied_text st in
  let original_freq := Counter original_words in
  let copied_freq := Counter copied_words in
  let similarity := calculate_cosine_similarity original_freq copied_freq in
  (similarity, st).

(** What the tokens of a text are does not depend on the tokenizer's state:
    the dictionary is fixed. *)
Definition fixed_dictionary : Prop :=
  forall text st st', (jieba_cut text st).1 = (jieba_cut text st').1.

(** jieba yields no token for the empty string. *)
Definition no_token_of_empty : Prop :=
  forall st, (jieba_cut [] st).1 = [].

(** The tokenizer's state after [preprocess_text] has run on each of
    [texts] in turn. *)
Definition after_runs (texts : list pystr) (st : jieba_state) : jieba_state :=
  foldl (fun st text => (preprocess_text text st).2) st texts.

(** The tokenizer cuts with a dictionary that its state holds. Cutting may
    change the state (the lazy load, the caches) but not the dictionary, and
    the tokens of a text depend on the state through the dictionary only.
    The program calls nothing of jieba but [cut]. *)
Definition dictionary_kept {D : Type} (dictionary : jieba_state -> D) : Prop :=
  (forall text st, dictionary (jieba_cut text st).2 = dictionary st)
  /\ (forall text st st',
        dictionary st = dictionary st' ->
        (jieba_cut text st).1 = (jieba_cut text st').1).

End Tokenizer.

Arguments preprocess_text _ _ {_} _ _ _.
Arguments calculate_similarity _ _ {_} _ _ _ _.
Arguments fixed_dictionary {_} _.
Arguments no_token_of_empty {_} _.
Arguments after_runs _ _ {_} _ _ _.
Arguments dictionary_kept {_} _ {_} _.

(* ===================================================================== *)
(** ** Concrete data of the tests *)

(** [{'西区': 1, '共享': 1, '食堂': 1}] *)
Definition canteen : gmap string Z :=
  <[ "西区" := 1 ]> (<[ "共享" := 1 ]> (<[ "食堂" := 1 ]> ∅)).

(** [{'西区': 1, '共享': 1, '吃饭': 1}] *)
Definition dinner : gmap string Z :=
  <[ "西区" := 1 ]> (<[ "共享" := 1 ]> (<[ "吃饭" := 1 ]> ∅)).

(** [{'昨天': 1, '太阳': 1}] *)
Definition yesterday : gmap string Z :=
  <[ "昨天" := 1 ]> (<[ "太阳" := 1 ]> ∅).

(** [{'后天': 1, '暴雨': 1}] *)
Definition overmorrow : gmap string Z :=
  <[ "后天" := 1 ]> (<[ "暴雨" := 1 ]> ∅).

(** [{'明天': 2, '空气': 1, '爽': 1}] *)
Definition tomorrow : gmap string Z :=
  <[ "明天" := 2 ]> (<[ "空气" := 1 ]> (<[ "爽" := 1 ]> ∅)).

(** The double nearest to 2/3, the value of Python's [2 / 3]. *)
Definition two_thirds : PyFloat.t := S754_finite false 6004799503160661 (-53).

(** The double next above [two_thirds]: 0.66666666666666674. *)
Definition two_thirds_up : PyFloat.t := S754_finite false 6004799503160662 (-53).

(** The double nearest to the square root of 3. *)
Definition sqrt_three : PyFloat.t := S754_finite false 7800463371553962 (-52).

(** The double next above 1: 1.0000000000000002. *)
Definition one_up : PyFloat.t := S754_finite false 4503599627370497 (-52).

(** [|x - n/d| <= 2^-k], decided on the exact value of [x]. *)
Definition within (x : PyFloat.t) (n d k : Z) : bool :=
  match PyFloat.to_frac x with
  | Some (p, q) => Z.abs (p * d - n * q) * 2 ^ k <=? q * d
  | None => false
  end.

(** [x = n/d], decided on the exact value of [x]. *)
Definition equals_ratio (x : PyFloat.t) (n d : Z) : bool :=
  match PyFloat.to_frac x with
  | Some (p, q) => p * d =? n * q
  | None => false
  end.

(** The interpreter's tables on ASCII and on the CJK unified ideographs. *)
Definition demo_isalnum (c : codepoint) : bool :=
  ((48 <=? c) && (c <=? 57) || (65 <=? c) && (c <=? 90)
   || (97 <=? c) && (c <=? 122) || (19968 <=? c) && (c <=? 40959))%N.

Definition demo_isspace (c : codepoint) : bool :=
  ((9 <=? c) && (c <=? 13) || (28 <=? c) && (c <=? 32))%N.

(** A stand-in for jieba: one token per character; the state counts the
    calls. *)
Definition char_cut (text : pystr) (calls : nat) : list pystr * nat :=
  ((fun c => [c]) <$> text, S calls).

(** A stand-in with a dictionary in its state: with [true] it cuts a text
    into its characters, with [false] at its spaces only; the number counts
    the calls. *)
Definition mode_cut (text : pystr) (st : bool * nat)
  : list pystr * (bool * nat) :=
  let words :=
    if st.1 then (fun c => [c]) <$> text
    else foldr (fun c acc =>
                  if (c =? 32)%N then [] :: acc
                  else match acc with
                       | [] => [[c]]
                       | w :: rest => (c :: w) :: rest
                       end) [] text in
  (words, (st.1, S st.2)).

(** ["Hi, 你好!"] *)
Definition greeting : pystr := [72; 105; 44; 32; 20320; 22909; 33]%N.

(** ["Hi 你好"] *)
Definition greeting_plain : pystr := [72; 105; 32; 20320; 22909]%N.

(** ["  Hi, 你好!\n"] *)
Definition greeting_padded : pystr :=
  [32; 32; 72; 105; 44; 32; 20320; 22909; 33; 10]%N.

(** ["再见"] *)
Definition farewell : pystr := [20877; 35265]%N.


(* ===================================================================== *)
(** ** File reading, output formatting and the command line *)

(** [str.lstrip()] with the whitespace table [isspace]. *)
Fixpoint lstrip (isspace : codepoint -> bool) (text : pystr) : pystr :=
  match text with
  | [] => []
  | c :: rest => if isspace c then lstrip isspace rest else text
  end.

(** [str.strip()]: the whitespace at both ends removed. *)
Definition py_strip (isspace : codepoint -> bool) (text : pystr) : pystr :=
  rev (lstrip isspace (rev (lstrip isspace text))).

(** [p/q] rounded to the nearest integer, ties to even ([0 <= p], [0 < q]). *)
Definition round_half_even (p q : Z) : Z :=
  let n := p / q in
  match 2 * (p mod q) ?= q with
  | Lt => n
  | Gt => n + 1
  | Eq => if Z.even n then n else n + 1
  end.

(** The absolute value of a finite float in hundredths, correctly rounded. *)
Definition hundredths (x : PyFloat.t) : Z :=
  match x with
  | S754_finite _ m e =>
      if 0 <=? e then 100 * (Z.pos m * 2 ^ e)
      else round_half_even (100 * Z.pos m) (2 ^ (- e))
  | _ => 0
  end.

(** The character of a decimal digit. *)
Definition digit (d : Z) : codepoint := Z.to_N (48 + d).

Fixpoint uint_digits (u : Decimal.uint) : pystr :=
  match u with
  | Decimal.Nil => []
  | Decimal.D0 u => digit 0 :: uint_digits u
  | Decimal.D1 u => digit 1 :: uint_digits u
  | Decimal.D2 u => digit 2 :: uint_digits u
  | Decimal.D3 u => digit 3 :: uint_digits u
  | Decimal.D4 u => digit 4 :: uint_digits u
  | Decimal.D5 u => digit 5 :: uint_digits u
  | Decimal.D6 u => digit 6 :: uint_digits u
  | Decimal.D7 u => digit 7 :: uint_digits u
  | Decimal.D8 u => digit 8 :: uint_digits u
  | Decimal.D9 u => digit 9 :: uint_digits u
  end.

(** The decimal digits of a natural number, without leading zeros. *)
Definition decimal (n : Z) : pystr := uint_digits (N.to_uint (Z.to_N n)).

(** [sign] followed by [n] hundredths written with two decimals. *)
Definition two_decimals (sign : bool) (n : Z) : pystr :=
  (if sign then [45%N] else [])
  ++ decimal (n / 100) ++ [46%N; digit (n mod 100 / 10); digit (n mod 10)].

(** ["{:.2f}".format(x)]: the exact value of [x] rounded to two decimals,
    ties to even; [nan], [inf] and [-inf] for what is not finite. *)
Definition format_2f (x : PyFloat.t) : pystr :=
  match x with
  | S754_nan => [110; 97; 110]%N
  | S754_infinity s => (if s then [45%N] else []) ++ [105; 110; 102]%N
  | S754_zero s => two_decimals s 0
  | S754_finite s _ _ => two_decimals s (hundredths x)
  end.

(** [x <= n/d], decided on the exact value of [x] ([0 < d]). *)
Definition at_most (x : PyFloat.t) (n d : Z) : bool :=
  match PyFloat.to_frac x with
  | Some (p, q) => p * d <=? n * q
  | None => false
  end.

(** [|x - n/100| <= 1/200]: [n] hundredths is a nearest two-decimal value of
    [x], decided on the exact value of [x]. *)
Definition nearest_hundredth (x : PyFloat.t) (n : Z) : bool :=
  match PyFloat.to_frac x with
  | Some (p, q) => Z.abs (200 * p - 2 * n * q) <=? q
  | None => false
  end.

(** What the program prints. *)
Inductive message : Type :=
(** ["Usage: python main.py [原文文件] [抄袭版论文的文件] [答案文件]"] *)
| Usage
(** [f"Error reading file {file_path}: {e}"] *)
| ErrorReading (file_path e : pystr)
(** [f"Error writing to output file: {e}"] *)
| ErrorWriting (e : pystr).

(** What the program's own code does to its environment, in order: its
    calls of [print] and of [open]. What the libraries do on their own
    behalf (jieba loading its dictionary and writing its cache file) is not
    recorded. *)
Inductive event : Type :=
| Print (m : message)
(** [open(file_path, 'r', encoding='utf-8')] and [f.read()] *)
| OpenRead (file_path : pystr)
(** [open(output_file, 'w', encoding='utf-8')] and [f.write(text)] *)
| OpenWrite (output_file text : pystr).

(** How a call ends: it returns, [sys.exit(code)] ends the process, or an
    exception is left uncaught. *)
Inductive outcome (A : Type) : Type :=
| Return (a : A)
| SystemExit (code : Z)
| Uncaught (e : exn).
Arguments Return {A} a.
Arguments SystemExit {A} code.
Arguments Uncaught {A} e.

Section Program.

Variable unicode_isalnum : codepoint -> bool.
Variable unicode_isspace : codepoint -> bool.
Variable jieba_state : Type.
Variable jieba_cut : pystr -> jieba_state -> list pystr * jieba_state.

(** The environment: what opening and reading a file gives after the events
    so far, the decoded text or the text of the exception raised; and
    whether opening and writing a file succeeds, or the text of the
    exception. *)
Variable read_response : list event -> pystr -> pystr + pystr.
Variable write_response : list event -> pystr -> pystr -> option pystr.

Definition read_file (file_path : pystr) (trace : list event)
  : outcome pystr * list event :=
  match read_response trace file_path with
  | inl text =>
      let content := py_strip unicode_isspace text in
      (Return content, trace ++ [OpenRead file_path])
  | inr e =>
      (SystemExit 1,
       trace ++ [OpenRead file_path; Print (ErrorReading file_path e)])
  end.

(** [main()], with [sys.argv] as [argv]. [len(sys.argv) != 4] is the last
    case of the match; otherwise [argv[1]], [argv[2]], [argv[3]] are the
    three paths. *)
Definition main (argv : list pystr) (st : jieba_state) (trace : list event)
  : outcome unit * list event * jieba_state :=
  match argv with
  | [_; original_file; copied_file; output_file] =>
      match read_file original_file trace with
      | (Return original_text, trace) =>
          match read_file copied_file trace with
          | (Return copied_text, trace) =>
              let (similarity, st) :=
                calculate_similarity unicode_isalnum unicode_isspace jieba_cut
                  original_text copied_text st in
              match similarity with
              | Ok similarity =>
                  let text := format_2f similarity in
                  match write_response trace output_file text with
                  | None =>
                      (Return tt, trace ++ [OpenWrite output_file text], st)
                  | Some e =>
                      (SystemExit 1,
                       trace ++ [OpenWrite output_file text;
                                 Print (ErrorWriting e)], st)
                  end
              | Raise e => (Uncaught e, trace, st)
              end
          | (SystemExit code, trace) => (SystemExit code, trace, st)
          | (Uncaught e, trace) => (Uncaught e, trace, st)
          end
      | (SystemExit code, trace) => (SystemExit code, trace, st)
      | (Uncaught e, trace) => (Uncaught e, trace, st)
      end
  | _ => (SystemExit 1, trace ++ [Print Usage], st)
  end.

End Program.

Arguments read_file _ _ _ _ : assert.
Arguments main _ _ {_} _ _ _ _ _ _.

(** A small environment: the file ["a"] holds [greeting_padded], ["b"] holds
    [greeting], ["c"] holds [farewell]; nothing else can be read, and every
    write succeeds. *)
Definition demo_read (trace : list event) (file_path : pystr) : pystr + pystr :=
  if decide (file_path = [97%N]) then inl greeting_padded
  else if decide (file_path = [98%N]) then inl greeting
  else if decide (file_path = [99%N]) then inl farewell
  else inr [69; 78; 79; 69; 78; 84]%N.

Definition demo_write (trace : list event) (output_file text : pystr)
  : option pystr := None.

(* ===================================================================== *)
(** ** Notions used in the proofs on binary64 *)

Module Binary64.

(** A mantissa and an exponent as a float, infinite past the largest
    exponent. *)
Definition mk (sx : bool) (m e : Z) : spec_float :=
  if e <=? emax - prec then S754_finite sx (Z.to_pos m) e
  else S754_infinity sx.

Definition normal_out (sx : bool) (r e : Z) : spec_float :=
  if r =? 2 ^ 53 then mk sx (2 ^ 52) (e + 1) else mk sx r e.

(** Floats that are at least one: positive, normal, with a 53-bit
    mantissa. *)
Definition ge_one (f : spec_float) : Prop :=
  match f with
  | S754_finite false m e => Zdigits2 (Z.pos m) = 53 /\ -52 <= e <= emax - prec
  | _ => False
  end.

Definition positive_nonzero (f : spec_float) : Prop :=
  match f with
  | S754_finite false _ _ | S754_infinity false => True
  | _ => False
  end.

Definition not_negative (f : spec_float) : Prop :=
  match f with
  | S754_zero true | S754_infinity true | S754_finite true _ _ => False
  | _ => True
  end.

(** The real value of a float; 0 for what is not finite. *)
Definition B2R (f : spec_float) : R :=
  match f with
  | S754_finite s m e =>
      ((if s then -1 else 1) * IZR (Z.pos m) * powerRZ 2 e)%R
  | _ => 0%R
  end.

(** [2^-52], the distance from 1.0 to the next double. *)
Definition eps : R := (/ 4503599627370496)%R.

(** Unfold the binary64 parameters to their numerals. *)
Ltac b64 := unfold SpecFloat.emin, prec, emax in *.

(** Make the quotient of [e] by two known to [lia]. *)
Ltac halves e :=
  pose proof (Z.div_mod e 2 ltac:(lia));
  pose proof (Z.mod_pos_bound e 2 ltac:(lia)).

End Binary64.

(* ===================================================================== *)
(** ** Facts on binary64 rounding, at the level of mantissas *)

Module FloatFacts.
Import Binary64.


Lemma digits2_pos_bounds (p : positive) :
  2 ^ (Z.pos (digits2_pos p) - 1) <= Z.pos p < 2 ^ Z.pos (digits2_pos p).
Proof.
  induction p as [p IH | p IH |]; simpl digits2_pos.
  - rewrite Pos2Z.inj_succ.
    replace (Z.succ (Z.pos (digits2_pos p)) - 1) with (Z.succ (Z.pos (digits2_pos p) - 1)) by lia.
    rewrite !Z.pow_succ_r by lia. lia.
  - rewrite Pos2Z.inj_succ.
    replace (Z.succ (Z.pos (digits2_pos p)) - 1) with (Z.succ (Z.pos (digits2_pos p) - 1)) by lia.
    rewrite !Z.pow_succ_r by lia. lia.
  - simpl. lia.
Qed.

(** The number of binary digits is determined by the two powers of two
    that enclose the number. *)
Lemma digits2_unique (m d : Z) :
  0 < d -> 2 ^ (d - 1) <= m < 2 ^ d -> Zdigits2 m = d.
Proof.
  intros Hd [Hlo Hhi].
  assert (0 < m) by (pose proof (Z.pow_pos_nonneg 2 (d - 1)); lia).
  destruct m as [|p|p]; try lia. simpl.
  pose proof (digits2_pos_bounds p) as [Hlo' Hhi'].
  set (d' := Z.pos (digits2_pos p)) in *.
  destruct (Z.lt_trichotomy d' d) as [Hlt | [Heq | Hgt]]; [|done|].
  - assert (2 ^ d' <= 2 ^ (d - 1)) by (apply Z.pow_le_mono_r; lia). lia.
  - assert (2 ^ d <= 2 ^ (d' - 1)) by (apply Z.pow_le_mono_r; lia). lia.
Qed.

Lemma Zdigits2_bounds (m : Z) :
  0 < m -> 2 ^ (Zdigits2 m - 1) <= m < 2 ^ Zdigits2 m.
Proof.
  destruct m as [|p|p]; try lia. intros _. apply digits2_pos_bounds.
Qed.

Lemma Zdigits2_pos (m : Z) : 0 < m -> 0 < Zdigits2 m.
Proof. destruct m; simpl; lia. Qed.

(** *** Right shifts of a mantissa record *)

Lemma shr_1_m (mrs : shr_record) :
  0 <= shr_m mrs -> shr_m (shr_1 mrs) = shr_m mrs / 2.
Proof.
  destruct mrs as [m r s]; cbn [shr_m]. intros Hm.
  destruct m as [|[p|p|]|p]; cbn [shr_1 shr_m]; try lia; try reflexivity.
  - apply (Z.div_unique_pos _ _ _ 1); lia.
  - apply (Z.div_unique_pos _ _ _ 0); lia.
Qed.

Lemma iter_shr_1_m (p : positive) (mrs : shr_record) :
  0 <= shr_m mrs ->
  shr_m (SpecFloat.iter_pos shr_1 p mrs) = shr_m mrs / 2 ^ Z.pos p.
Proof.
  revert mrs. induction p as [p IH | p IH |]; intros mrs Hm; cbn [SpecFloat.iter_pos].
  - assert (H1 : 0 <= shr_m (shr_1 mrs)).
    { rewrite shr_1_m by done. apply Z.div_pos; lia. }
    assert (H2 : 0 <= shr_m (SpecFloat.iter_pos shr_1 p (shr_1 mrs))).
    { rewrite IH by done. apply Z.div_pos; [done|]. apply Z.pow_pos_nonneg; lia. }
    rewrite IH, IH, shr_1_m by done.
    rewrite !Z.div_div by (try apply Z.pow_pos_nonneg; lia).
    f_equal. rewrite (Pos2Z.inj_xI p).
    replace (2 * Z.pos p + 1) with (1 + Z.pos p + Z.pos p) by lia.
    rewrite !Z.pow_add_r by lia. change (2 ^ 1) with 2. lia.
  - assert (H2 : 0 <= shr_m (SpecFloat.iter_pos shr_1 p mrs)).
    { rewrite IH by done. apply Z.div_pos; [done|]. apply Z.pow_pos_nonneg; lia. }
    rewrite IH, IH by done.
    rewrite !Z.div_div by (try apply Z.pow_pos_nonneg; lia).
    f_equal. rewrite (Pos2Z.inj_xO p).
    replace (2 * Z.pos p) with (Z.pos p + Z.pos p) by lia.
    rewrite !Z.pow_add_r by lia. lia.
  - rewrite shr_1_m by done. reflexivity.
Qed.

Lemma shr_record_of_loc_m (m : Z) (l : location) :
  shr_m (shr_record_of_loc m l) = m.
Proof. destruct l as [|[]]; reflexivity. Qed.

Lemma shr_spec (mrs : shr_record) (e n : Z) :
  0 <= shr_m mrs -> 0 <= n ->
  shr_m (fst (shr mrs e n)) = shr_m mrs / 2 ^ n /\ snd (shr mrs e n) = e + n.
Proof.
  intros Hm Hn. destruct n as [|p|p]; try lia; simpl.
  - rewrite Z.div_1_r. lia.
  - split; [|done]. apply iter_shr_1_m. done.
Qed.

Lemma round_nearest_even_cases (m : Z) (l : location) :
  round_nearest_even m l = m \/ round_nearest_even m l = m + 1.
Proof.
  destruct l as [|[]]; simpl; auto. destruct (Z.even m); auto.
Qed.

(** *** Rounding a mantissa that has at least 53 digits, away from the
    subnormal range *)


Lemma fexp_normal (e : Z) : emin <= e - prec -> fexp prec emax e = e - prec.
Proof. unfold fexp. lia. Qed.

Lemma div_pow2_bounds (mx d n : Z) :
  0 <= n -> n < d -> 2 ^ (d - 1) <= mx < 2 ^ d ->
  2 ^ (d - n - 1) <= mx / 2 ^ n < 2 ^ (d - n).
Proof.
  intros Hn Hd [Hlo Hhi].
  assert (Hp : 0 < 2 ^ n) by (apply Z.pow_pos_nonneg; lia).
  split.
  - apply Z.div_le_lower_bound; [done|].
    rewrite <- Z.pow_add_r by lia.
    replace (n + (d - n - 1)) with (d - 1) by lia. done.
  - apply Z.div_lt_upper_bound; [done|].
    rewrite <- Z.pow_add_r by lia.
    replace (n + (d - n)) with d by lia. done.
Qed.

Lemma binary_round_aux_normal (sx : bool) (mx ex : Z) (lx : location) :
  0 < mx -> prec <= Zdigits2 mx -> emin <= Zdigits2 mx + ex - prec ->
  let e1 := Zdigits2 mx + ex - prec in
  let m1 := mx / 2 ^ (e1 - ex) in
  2 ^ 52 <= m1 < 2 ^ 53 /\
  exists r, (r = m1 \/ r = m1 + 1) /\
    binary_round_aux prec emax sx mx ex lx = normal_out sx r e1.
Proof.
  intros Hmx Hd Hmin e1 m1.
  pose proof (Zdigits2_bounds mx Hmx) as Hb.
  assert (Hm1 : 2 ^ 52 <= m1 < 2 ^ 53).
  { pose proof (div_pow2_bounds mx (Zdigits2 mx) (e1 - ex)) as Hdiv.
    unfold e1, prec in *.
    replace (Zdigits2 mx - (Zdigits2 mx + ex - 53 - ex) - 1) with 52 in Hdiv by lia.
    replace (Zdigits2 mx - (Zdigits2 mx + ex - 53 - ex)) with 53 in Hdiv by lia.
    apply Hdiv; [lia | lia | done]. }
  split; [done|].
  unfold binary_round_aux, shr_fexp.
  rewrite (fexp_normal (Zdigits2 mx + ex)) by done.
  fold e1.
  pose proof (shr_spec (shr_record_of_loc mx lx) ex (e1 - ex)) as Hshr.
  rewrite shr_record_of_loc_m in Hshr.
  destruct (shr (shr_record_of_loc mx lx) ex (e1 - ex)) as [mrs' e'].
  destruct Hshr as [Hm' He']; [lia | unfold e1, prec in *; lia |].
  cbn [fst snd] in Hm', He'. fold m1 in Hm'.
  replace e' with e1 by lia.
  set (r := round_nearest_even (shr_m mrs') (loc_of_shr_record mrs')).
  assert (Hr : r = m1 \/ r = m1 + 1).
  { unfold r. rewrite <- Hm'. apply round_nearest_even_cases. }
  exists r. split; [done|].
  unfold normal_out, mk.
  destruct (Z.eqb_spec r (2 ^ 53)) as [Heq | Hne].
  - rewrite Heq.
    assert (Hdig : Zdigits2 (2 ^ 53) = 54) by reflexivity.
    rewrite Hdig, (fexp_normal (54 + e1)) by (unfold e1, prec in *; lia).
    replace (54 + e1 - prec - e1) with 1 by (unfold prec; lia).
    cbn [shr shr_record_of_loc SpecFloat.iter_pos shr_1 shr_m fst snd].
    change (Z.pos 4503599627370496) with (2 ^ 52).
    simpl (shr_m _). simpl (2 ^ 52).
    reflexivity.
  - assert (Hdig : Zdigits2 r = 53).
    { apply digits2_unique; [lia|]. change (53 - 1) with 52. lia. }
    rewrite Hdig, (fexp_normal (53 + e1)) by (unfold e1, prec in *; lia).
    replace (53 + e1 - prec - e1) with 0 by (unfold prec; lia).
    cbn [shr shr_record_of_loc shr_m fst snd].
    destruct r as [|p|p]; try lia. reflexivity.
Qed.

Lemma normal_out_finite (sx : bool) (r e1 : Z) :
  2 ^ 52 <= r <= 2 ^ 53 -> e1 + 1 <= emax - prec ->
  exists p e, normal_out sx r e1 = S754_finite sx p e /\
    Zdigits2 (Z.pos p) = 53 /\ e1 <= e <= e1 + 1 /\
    Z.pos p * 2 ^ (e - e1) = r.
Proof.
  intros Hr He. unfold normal_out, mk.
  destruct (Z.eqb_spec r (2 ^ 53)) as [-> | Hne].
  - exists (Z.to_pos (2 ^ 52)), (e1 + 1).
    destruct (Z.leb_spec (e1 + 1) (emax - prec)); [|lia].
    split; [done|]. split; [reflexivity|]. split; [lia|].
    replace (e1 + 1 - e1) with 1 by lia. reflexivity.
  - exists (Z.to_pos r), e1.
    destruct (Z.leb_spec e1 (emax - prec)); [|lia].
    split; [done|].
    assert (0 < r) by lia.
    rewrite Z2Pos.id by done.
    split; [apply digits2_unique; [lia|]; change (53 - 1) with 52; lia|].
    split; [lia|]. rewrite Z.sub_diag. lia.
Qed.

(** *** Left alignment *)

Lemma iter_xO (d mx : positive) :
  Z.pos (Pos.iter xO mx d) = Z.pos mx * 2 ^ Z.pos d.
Proof.
  induction d as [|d IH] using Pos.peano_ind.
  - simpl. lia.
  - rewrite Pos.iter_succ, Pos2Z.inj_xO, IH, Pos2Z.inj_succ, Z.pow_succ_r by lia.
    lia.
Qed.

Lemma shl_align_spec (mx : positive) (ex ex' : Z) :
  let '(mz, ez) := shl_align mx ex ex' in
  ez = Z.min ex ex' /\ Z.pos mz = Z.pos mx * 2 ^ (ex - ez).
Proof.
  unfold shl_align. destruct (ex' - ex) as [|d|d] eqn:Hd.
  - split; [lia|]. rewrite Z.sub_diag. lia.
  - split; [lia|]. rewrite Z.sub_diag. lia.
  - split; [lia|]. rewrite iter_xO. do 2 f_equal. lia.
Qed.

(** *** Floats that are at least one *)


Lemma ge_one_nonzero (f : spec_float) :
  ge_one f -> PyFloat.eqb f PyFloat.zero = false.
Proof. destruct f as [| | |[] m e]; simpl; try tauto. Qed.

Lemma Zdigits2_mul_pow2 (m k : Z) :
  0 < m -> 0 <= k -> Zdigits2 (m * 2 ^ k) = Zdigits2 m + k.
Proof.
  intros Hm Hk. pose proof (Zdigits2_bounds m Hm) as [Hlo Hhi].
  pose proof (Zdigits2_pos m Hm).
  assert (0 < 2 ^ k) by (apply Z.pow_pos_nonneg; lia).
  apply digits2_unique; [lia|].
  replace (Zdigits2 m + k - 1) with (Zdigits2 m - 1 + k) by lia.
  rewrite !Z.pow_add_r by lia. nia.
Qed.

(** [float(n)] of a positive integer below [2^1023] is a normal float
    of at least one. *)
Lemma of_int_pos (n : Z) :
  0 < n < 2 ^ 1023 -> exists f, PyFloat.of_int n = Ok f /\ ge_one f.
Proof.
  intros [Hn Hlt]. destruct n as [|p|p]; try lia.
  unfold PyFloat.of_int. cbn [binary_normalize]. unfold binary_round.
  pose proof (shl_align_spec p 0 (fexp prec emax (Z.pos (digits2_pos p) + 0))) as Hal.
  destruct (shl_align p 0 (fexp prec emax (Z.pos (digits2_pos p) + 0))) as [mz ez].
  destruct Hal as [Hez Hmz].
  pose proof (Zdigits2_bounds (Z.pos p) Hn) as Hb.
  pose proof (Zdigits2_pos (Z.pos p) Hn) as Hdp.
  change (Z.pos (digits2_pos p)) with (Zdigits2 (Z.pos p)) in *.
  set (d := Zdigits2 (Z.pos p)) in *.
  assert (Hd : d <= 1023).
  { destruct (Z.le_gt_cases d 1023) as [|Hgt]; [done|].
    assert (2 ^ 1023 <= 2 ^ (d - 1)) by (apply Z.pow_le_mono_r; lia). lia. }
  rewrite Z.add_0_r, fexp_normal in Hez by (b64; lia).
  assert (Hdz : Zdigits2 (Z.pos mz) = d + (0 - ez)).
  { rewrite Hmz. apply Zdigits2_mul_pow2; lia. }
  destruct (binary_round_aux_normal false (Z.pos mz) ez loc_Exact)
    as [Hm1 (r & Hr & ->)]; [lia | b64; lia | b64; lia |].
  destruct (normal_out_finite false r (Zdigits2 (Z.pos mz) + ez - prec))
    as (q & e & -> & Hdq & He & _); [lia | b64; lia |].
  eexists; split; [reflexivity|]. split; [done|]. b64. lia.
Qed.

Lemma normal_out_cases (sx : bool) (r e1 : Z) :
  2 ^ 52 <= r <= 2 ^ 53 ->
  (exists p e, normal_out sx r e1 = S754_finite sx p e) \/
  normal_out sx r e1 = S754_infinity sx.
Proof.
  intros Hr. unfold normal_out, mk.
  destruct (r =? 2 ^ 53);
    match goal with |- context [?a <=? ?b] => destruct (a <=? b) end; eauto.
Qed.

(** *** Square root *)

Lemma sqrt_bounds (a : Z) :
  2 ^ 104 <= a < 2 ^ 106 -> 2 ^ 52 <= Z.sqrt a < 2 ^ 53.
Proof.
  intros [Hlo Hhi]. split.
  - apply Z.sqrt_le_square; lia.
  - apply Z.sqrt_lt_square; lia.
Qed.

Lemma sqrt_core (m : positive) (e : Z) :
  Zdigits2 (Z.pos m) = 53 -> -52 <= e <= emax - prec ->
  let E := e / 2 - 26 in
  let q := Z.sqrt (Z.pos m * 2 ^ (e - 2 * E)) in
  2 ^ 52 <= q < 2 ^ 53 /\
  exists l, SFsqrt_core_binary prec emax (Z.pos m) e = (q, E, l).
Proof.
  intros Hd He E q. halves e. halves (53 + e + 1).
  assert (Hs : e - 2 * E = 52 \/ e - 2 * E = 53) by (unfold E; lia).
  pose proof (Zdigits2_bounds (Z.pos m) eq_refl) as Hb. rewrite Hd in Hb.
  change (53 - 1) with 52 in Hb.
  assert (Hq : 2 ^ 52 <= q < 2 ^ 53).
  { apply sqrt_bounds. destruct Hs as [-> | ->]; lia. }
  split; [done|].
  unfold SFsqrt_core_binary. rewrite Hd.
  rewrite !Z.div2_div.
  rewrite fexp_normal by (b64; lia).
  replace (Z.min ((53 + e + 1) / 2 - prec) (e / 2)) with E by (unfold E; b64; lia).
  assert (Hm' : match e - 2 * E with
                | 0 => Z.pos m
                | Z.pos _ => Z.shiftl (Z.pos m) (e - 2 * E)
                | Z.neg _ => 0
                end = Z.pos m * 2 ^ (e - 2 * E)).
  { destruct Hs as [-> | ->]; rewrite Z.shiftl_mul_pow2; lia. }
  rewrite Hm'.
  pose proof (Z.sqrtrem_sqrt (Z.pos m * 2 ^ (e - 2 * E))) as Hsq.
  destruct (Z.sqrtrem (Z.pos m * 2 ^ (e - 2 * E))) as [q' r']. cbn [fst] in Hsq.
  subst q'. fold q. eauto.
Qed.

Lemma sqrt_bracket (m : positive) (e : Z) :
  ge_one (S754_finite false m e) ->
  let E := e / 2 - 26 in
  let q := Z.sqrt (Z.pos m * 2 ^ (e - 2 * E)) in
  exists p e2, SF64sqrt (S754_finite false m e) = S754_finite false p e2 /\
    ge_one (S754_finite false p e2) /\ E <= e2 <= E + 1 /\
    (Z.pos p * 2 ^ (e2 - E) = q \/ Z.pos p * 2 ^ (e2 - E) = q + 1).
Proof.
  intros [Hd He] E q. halves e.
  destruct (sqrt_core m e Hd He) as [Hq [l Hcore]]. fold E q in Hq, Hcore.
  unfold SF64sqrt, SFsqrt. rewrite Hcore.
  assert (Hdq : Zdigits2 q = 53).
  { apply digits2_unique; [lia|]. change (53 - 1) with 52. lia. }
  destruct (binary_round_aux_normal false q E l)
    as [_ (r & Hr & ->)]; [lia | b64; lia | b64; unfold E; lia |].
  rewrite Hdq in *.
  replace (53 + E - prec - E) with 0 in Hr by (b64; lia).
  rewrite Z.div_1_r in Hr.
  replace (53 + E - prec) with E by (b64; lia).
  destruct (normal_out_finite false r E)
    as (p & e2 & -> & Hdp & He2 & Hv); [lia | b64; unfold E; lia |].
  exists p, e2. split; [done|]. split; [|split; [done|]].
  - split; [done|]. b64. unfold E in *. lia.
  - rewrite Hv. done.
Qed.

(** *** Product *)

Lemma mul_bracket (mx my : positive) (ex ey : Z) :
  ge_one (S754_finite false mx ex) -> ge_one (S754_finite false my ey) ->
  let P := Z.pos mx * Z.pos my in
  let E := Zdigits2 P + ex + ey - 53 in
  let N := P / 2 ^ (Zdigits2 P - 53) in
  105 <= Zdigits2 P <= 106 /\ 2 ^ 52 <= N < 2 ^ 53 /\
  exists r, (r = N \/ r = N + 1) /\
    SF64mul (S754_finite false mx ex) (S754_finite false my ey)
    = normal_out false r E.
Proof.
  intros [Hdx Hex] [Hdy Hey] P E N.
  pose proof (Zdigits2_bounds (Z.pos mx) eq_refl) as Hbx. rewrite Hdx in Hbx.
  pose proof (Zdigits2_bounds (Z.pos my) eq_refl) as Hby. rewrite Hdy in Hby.
  change (53 - 1) with 52 in *.
  assert (HP : 2 ^ 104 <= P < 2 ^ 106) by (unfold P; nia).
  assert (HdP : 105 <= Zdigits2 P <= 106).
  { destruct (Z.lt_ge_cases P (2 ^ 105)).
    - rewrite (digits2_unique P 105); [lia | lia | change (105 - 1) with 104; lia].
    - rewrite (digits2_unique P 106); [lia | lia | change (106 - 1) with 105; lia]. }
  split; [done|].
  unfold SF64mul, SFmul. cbn [xorb].
  change (Z.pos (mx * my)) with P.
  destruct (binary_round_aux_normal false P (ex + ey) loc_Exact)
    as [HN (r & Hr & ->)]; [lia | b64; lia | b64; lia |].
  replace (Zdigits2 P + (ex + ey) - prec - (ex + ey)) with (Zdigits2 P - 53)
    in HN, Hr by (b64; lia).
  replace (Zdigits2 P + (ex + ey) - prec) with E by (unfold E; b64; lia).
  fold N in HN, Hr. eauto.
Qed.


Lemma mul_ge_one (x y : spec_float) :
  ge_one x -> ge_one y -> positive_nonzero (PyFloat.mul x y).
Proof.
  intros Hx Hy.
  destruct x as [| | |[] mx ex]; try done.
  destruct y as [| | |[] my ey]; try done.
  destruct (mul_bracket mx my ex ey Hx Hy) as (_ & HN & r & Hr & Hmul).
  unfold PyFloat.mul. rewrite Hmul.
  destruct (normal_out_cases false r
    (Zdigits2 (Z.pos mx * Z.pos my) + ex + ey - 53)) as [(p & e & ->) | ->];
    [lia | done | done].
Qed.

Lemma div_zero_positive (y : spec_float) :
  positive_nonzero y -> PyFloat.div PyFloat.zero y = Ok PyFloat.zero.
Proof. destruct y as [|[]| |[] m e]; done. Qed.

(** *** Signs and exceptions *)


Lemma binary_round_aux_not_negative (mx ex : Z) (lx : location) :
  not_negative (binary_round_aux prec emax false mx ex lx).
Proof.
  unfold binary_round_aux.
  destruct (shr_fexp prec emax mx ex lx) as [mrs' e'].
  destruct (shr_fexp prec emax _ e' loc_Exact) as [mrs'' e''].
  destruct (shr_m mrs''); [done| |done].
  destruct (e'' <=? emax - prec); done.
Qed.

Lemma of_int_not_negative (n : Z) (f : spec_float) :
  0 <= n -> PyFloat.of_int n = Ok f -> not_negative f.
Proof.
  intros Hn. unfold PyFloat.of_int.
  destruct n as [|p|p]; [intros [= <-]; done | | lia].
  cbn [binary_normalize]. unfold binary_round.
  destruct (shl_align p 0 _) as [mz ez].
  pose proof (binary_round_aux_not_negative (Z.pos mz) ez loc_Exact) as Hs.
  destruct (binary_round_aux prec emax false (Z.pos mz) ez loc_Exact)
    as [[]|[]| |[] m e]; try done; intros [= <-]; done.
Qed.

Lemma sqrt_not_negative (f : spec_float) :
  not_negative f -> PyFloat.sqrt f = Ok (SF64sqrt f).
Proof. destruct f as [[]|[]| |[] m e]; done. Qed.

(** On a sum of squares [math.sqrt] raises nothing but [OverflowError]. *)
Lemma math_sqrt_raise (n : Z) (e : exn) :
  0 <= n -> math_sqrt n = Raise e -> e = OverflowError.
Proof.
  intros Hn. unfold math_sqrt.
  destruct (PyFloat.of_int n) as [f|e'] eqn:Hf.
  - cbn. rewrite (sqrt_not_negative f (of_int_not_negative n f Hn Hf)). done.
  - cbn. intros [= <-]. unfold PyFloat.of_int in Hf.
    destruct (binary_normalize prec emax n 0 false); congruence.
Qed.

Lemma math_sqrt_range (n : Z) :
  0 <= n < 2 ^ 1023 ->
  (n = 0 /\ math_sqrt n = Ok PyFloat.zero) \/
  (0 < n /\ exists m, math_sqrt n = Ok m /\ ge_one m).
Proof.
  intros [Hn Hlt]. destruct (Z.eq_dec n 0) as [-> | Hne]; [left; done|].
  right. split; [lia|].
  destruct (of_int_pos n) as (f & Hf & Hge); [lia|].
  unfold math_sqrt. rewrite Hf. cbn.
  destruct f as [| | |[] m e]; try done.
  destruct (sqrt_bracket m e Hge) as (p & e2 & Hsq & Hge2 & _).
  exists (S754_finite false p e2). split; [|done].
  unfold PyFloat.sqrt. by rewrite Hsq.
Qed.

Lemma of_int_range (n : Z) :
  0 <= n < 2 ^ 1023 -> exists f, PyFloat.of_int n = Ok f.
Proof.
  intros [Hn Hlt]. destruct (Z.eq_dec n 0) as [-> | Hne]; [by eexists|].
  destruct (of_int_pos n) as (f & Hf & _); [lia|]. eauto.
Qed.

Lemma normal_out_inv (sx : bool) (r e1 : Z) (f : spec_float) :
  2 ^ 52 <= r <= 2 ^ 53 -> normal_out sx r e1 = f ->
  f = S754_infinity sx \/
  exists p e, f = S754_finite sx p e /\ Zdigits2 (Z.pos p) = 53 /\
    e1 <= e <= e1 + 1 /\ e <= emax - prec /\ Z.pos p * 2 ^ (e - e1) = r.
Proof.
  intros Hr <-. unfold normal_out, mk.
  destruct (Z.eqb_spec r (2 ^ 53)) as [-> | Hne].
  - destruct (Z.leb_spec (e1 + 1) (emax - prec)); [right | by left].
    exists (Z.to_pos (2 ^ 52)), (e1 + 1).
    split; [done|]. split; [reflexivity|]. split; [lia|]. split; [done|].
    replace (e1 + 1 - e1) with 1 by lia. reflexivity.
  - destruct (Z.leb_spec e1 (emax - prec)); [right | by left].
    exists (Z.to_pos r), e1. split; [done|].
    assert (0 < r) by lia. rewrite Z2Pos.id by done.
    split; [apply digits2_unique; [lia|]; change (53 - 1) with 52; lia|].
    split; [lia|]. split; [done|]. rewrite Z.sub_diag. lia.
Qed.

(** Whatever positive integer converts without overflow converts to a
    normal float of at least one. *)
Lemma of_int_pos_ok (n : Z) (f : spec_float) :
  0 < n -> PyFloat.of_int n = Ok f -> ge_one f.
Proof.
  intros Hn. destruct n as [|p|p]; try lia.
  unfold PyFloat.of_int. cbn [binary_normalize]. unfold binary_round.
  pose proof (shl_align_spec p 0 (fexp prec emax (Z.pos (digits2_pos p) + 0))) as Hal.
  destruct (shl_align p 0 (fexp prec emax (Z.pos (digits2_pos p) + 0))) as [mz ez].
  destruct Hal as [Hez Hmz].
  pose proof (Zdigits2_pos (Z.pos p) Hn) as Hdp.
  change (Z.pos (digits2_pos p)) with (Zdigits2 (Z.pos p)) in *.
  set (d := Zdigits2 (Z.pos p)) in *.
  rewrite Z.add_0_r, fexp_normal in Hez by (b64; lia).
  assert (Hdz : Zdigits2 (Z.pos mz) = d + (0 - ez)).
  { rewrite Hmz. apply Zdigits2_mul_pow2; lia. }
  destruct (binary_round_aux_normal false (Z.pos mz) ez loc_Exact)
    as [Hm1 (r & Hr & ->)]; [lia | b64; lia | b64; lia |].
  destruct (normal_out_inv false r (Zdigits2 (Z.pos mz) + ez - prec) _
              ltac:(lia) eq_refl) as [-> | (q & e & -> & Hdq & He & Hmax & _)];
    [done|].
  intros [= <-]. split; [done|]. b64. lia.
Qed.

Lemma of_int_raise (n : Z) (e : exn) :
  PyFloat.of_int n = Raise e -> e = OverflowError.
Proof.
  unfold PyFloat.of_int.
  destruct (binary_normalize prec emax n 0 false); congruence.
Qed.

Lemma math_sqrt_cases (n : Z) :
  0 <= n ->
  math_sqrt n = Raise OverflowError \/
  (n = 0 /\ math_sqrt n = Ok PyFloat.zero) \/
  (0 < n /\ exists m, math_sqrt n = Ok m /\ ge_one m).
Proof.
  intros Hn. destruct (Z.eq_dec n 0) as [-> | Hne]; [right; left; done|].
  unfold math_sqrt. destruct (PyFloat.of_int n) as [f|e] eqn:Hf; cbn.
  - right; right. split; [lia|].
    pose proof (of_int_pos_ok n f ltac:(lia) Hf) as Hge.
    destruct f as [| | |[] m e]; try done.
    destruct (sqrt_bracket m e Hge) as (p & e2 & Hsq & Hge2 & _).
    exists (S754_finite false p e2). split; [|done].
    unfold PyFloat.sqrt. by rewrite Hsq.
  - left. by rewrite (of_int_raise n e Hf).
Qed.

(** *** Quotient *)

Lemma div_core (mx my : positive) (ex ey : Z) :
  Zdigits2 (Z.pos mx) = 53 -> Zdigits2 (Z.pos my) = 53 ->
  emin <= ex - ey - prec ->
  exists l, SFdiv_core_binary prec emax (Z.pos mx) ex (Z.pos my) ey
            = (Z.pos mx * 2 ^ 53 / Z.pos my, ex - ey - 53, l).
Proof.
  intros Hdx Hdy Hmin. unfold SFdiv_core_binary. rewrite Hdx, Hdy.
  replace (53 + ex - (53 + ey)) with (ex - ey) by lia.
  rewrite fexp_normal by done.
  replace (Z.min (ex - ey - prec) (ex - ey)) with (ex - ey - 53) by (b64; lia).
  replace (ex - ey - (ex - ey - 53)) with 53 by lia.
  rewrite Z.shiftl_mul_pow2 by lia.
  unfold Z.div.
  destruct (Z.div_eucl (Z.pos mx * 2 ^ 53) (Z.pos my)) as [q r]. eauto.
Qed.

Lemma div_bracket (mx my : positive) (ex ey : Z) :
  Zdigits2 (Z.pos mx) = 53 -> Zdigits2 (Z.pos my) = 53 ->
  emin <= ex - ey - prec ->
  let q := Z.pos mx * 2 ^ 53 / Z.pos my in
  let k := Zdigits2 q - 53 in
  let N := q / 2 ^ k in
  0 <= k <= 1 /\ 2 ^ 52 <= q /\ 2 ^ 52 <= N < 2 ^ 53 /\
  exists r, (r = N \/ r = N + 1) /\
    SF64div (S754_finite false mx ex) (S754_finite false my ey)
    = normal_out false r (k + (ex - ey - 53)).
Proof.
  intros Hdx Hdy Hmin q k N.
  pose proof (Zdigits2_bounds (Z.pos mx) eq_refl) as Hbx. rewrite Hdx in Hbx.
  pose proof (Zdigits2_bounds (Z.pos my) eq_refl) as Hby. rewrite Hdy in Hby.
  change (53 - 1) with 52 in *.
  assert (Hq : 2 ^ 52 <= q < 2 ^ 54).
  { unfold q. split.
    - apply Z.div_le_lower_bound; [lia|]. nia.
    - apply Z.div_lt_upper_bound; [lia|]. nia. }
  assert (Hk : 0 <= k <= 1).
  { unfold k. destruct (Z.lt_ge_cases q (2 ^ 53)).
    - rewrite (digits2_unique q 53); [lia | lia | change (53 - 1) with 52; lia].
    - rewrite (digits2_unique q 54); [lia | lia | change (54 - 1) with 53; lia]. }
  destruct (div_core mx my ex ey Hdx Hdy Hmin) as [l Hcore].
  fold q in Hcore.
  unfold SF64div, SFdiv. rewrite Hcore. cbn [xorb].
  destruct (binary_round_aux_normal false q (ex - ey - 53) l)
    as [HN (r & Hr & ->)]; [lia | b64; lia | b64; lia |].
  replace (Zdigits2 q + (ex - ey - 53) - prec - (ex - ey - 53)) with k
    in HN, Hr by (unfold k; b64; lia).
  replace (Zdigits2 q + (ex - ey - 53) - prec) with (k + (ex - ey - 53))
    by (unfold k; b64; lia).
  fold N in HN, Hr. split; [done|]. split; [lia|]. split; [done|]. eauto.
Qed.

(** A positive integer below [2^127] converts to a double with a small
    exponent. *)
Lemma of_int_small (n : Z) :
  0 < n < 2 ^ 127 ->
  exists m e, PyFloat.of_int n = Ok (S754_finite false m e) /\
    Zdigits2 (Z.pos m) = 53 /\ -52 <= e <= 75.
Proof.
  intros [Hn Hlt]. destruct n as [|p|p]; try lia.
  unfold PyFloat.of_int. cbn [binary_normalize]. unfold binary_round.
  pose proof (shl_align_spec p 0 (fexp prec emax (Z.pos (digits2_pos p) + 0))) as Hal.
  destruct (shl_align p 0 (fexp prec emax (Z.pos (digits2_pos p) + 0))) as [mz ez].
  destruct Hal as [Hez Hmz].
  pose proof (Zdigits2_bounds (Z.pos p) Hn) as Hb.
  pose proof (Zdigits2_pos (Z.pos p) Hn) as Hdp.
  change (Z.pos (digits2_pos p)) with (Zdigits2 (Z.pos p)) in *.
  set (d := Zdigits2 (Z.pos p)) in *.
  assert (Hd : d <= 127).
  { destruct (Z.le_gt_cases d 127) as [|Hgt]; [done|].
    assert (2 ^ 127 <= 2 ^ (d - 1)) by (apply Z.pow_le_mono_r; lia). lia. }
  rewrite Z.add_0_r, fexp_normal in Hez by (b64; lia).
  assert (Hdz : Zdigits2 (Z.pos mz) = d + (0 - ez)).
  { rewrite Hmz. apply Zdigits2_mul_pow2; lia. }
  destruct (binary_round_aux_normal false (Z.pos mz) ez loc_Exact)
    as [Hm1 (r & Hr & ->)]; [lia | b64; lia | b64; lia |].
  destruct (normal_out_finite false r (Zdigits2 (Z.pos mz) + ez - prec))
    as (q & e & -> & Hdq & He & _); [lia | b64; lia |].
  exists q, e. split; [done|]. split; [done|]. b64. lia.
Qed.

Lemma mul_comm (x y : spec_float) : PyFloat.mul x y = PyFloat.mul y x.
Proof.
  unfold PyFloat.mul, SF64mul, SFmul.
  destruct x as [sx|sx| |sx mx ex], y as [sy|sy| |sy my ey];
    rewrite ?(xorb_comm sx sy), ?(Pos.mul_comm mx my), ?(Z.add_comm ex ey);
    reflexivity.
Qed.

(** The conversion of a positive integer below [2^127]: the integer is
    aligned to at least 53 bits, cut to 53 bits and rounded. *)
Lemma of_int_bracket (n : Z) :
  0 < n < 2 ^ 127 ->
  exists (mz : positive) (ez : Z),
    ez <= 0 /\ Z.pos mz = n * 2 ^ (- ez) /\
    let k := Zdigits2 (Z.pos mz) - 53 in
    let N := Z.pos mz / 2 ^ k in
    0 <= k /\ 2 ^ 52 <= N < 2 ^ 53 /\ -52 <= k + ez <= 74 /\
    exists r, (r = N \/ r = N + 1) /\
      binary_normalize prec emax n 0 false = normal_out false r (k + ez).
Proof.
  intros [Hn Hlt]. destruct n as [|p|p]; try lia.
  cbn [binary_normalize]. unfold binary_round.
  pose proof (shl_align_spec p 0 (fexp prec emax (Z.pos (digits2_pos p) + 0))) as Hal.
  destruct (shl_align p 0 (fexp prec emax (Z.pos (digits2_pos p) + 0))) as [mz ez].
  destruct Hal as [Hez Hmz].
  pose proof (Zdigits2_bounds (Z.pos p) Hn) as Hb.
  pose proof (Zdigits2_pos (Z.pos p) Hn) as Hdp.
  change (Z.pos (digits2_pos p)) with (Zdigits2 (Z.pos p)) in *.
  set (d := Zdigits2 (Z.pos p)) in *.
  assert (Hd : d <= 127).
  { destruct (Z.le_gt_cases d 127) as [|Hgt]; [done|].
    assert (2 ^ 127 <= 2 ^ (d - 1)) by (apply Z.pow_le_mono_r; lia). lia. }
  rewrite Z.add_0_r, fexp_normal in Hez by (b64; lia).
  assert (Hdz : Zdigits2 (Z.pos mz) = d + (0 - ez)).
  { rewrite Hmz. apply Zdigits2_mul_pow2; lia. }
  exists mz, ez. split; [b64; lia|]. split; [by rewrite Hmz|].
  cbv zeta.
  set (k := Zdigits2 (Z.pos mz) - 53). set (N := Z.pos mz / 2 ^ k).
  destruct (binary_round_aux_normal false (Z.pos mz) ez loc_Exact)
    as [Hm1 (r & Hr & ->)]; [lia | b64; lia | b64; lia |].
  replace (Zdigits2 (Z.pos mz) + ez - prec - ez) with k in Hm1, Hr
    by (unfold k; b64; lia).
  replace (Zdigits2 (Z.pos mz) + ez - prec) with (k + ez) by (unfold k; b64; lia).
  fold N in Hm1, Hr.
  split; [unfold k; b64; lia|]. split; [done|].
  split; [unfold k; b64; lia|]. eauto.
Qed.

End FloatFacts.

(* ===================================================================== *)
(** ** Accuracy of the double operations, on real values *)

Module FloatAccuracy.
Import Binary64 FloatFacts.
Local Open Scope R_scope.


Lemma eps_pos : 0 < eps.
Proof. unfold eps. lra. Qed.

Lemma pow2_pos (e : Z) : 0 < powerRZ 2 e.
Proof. apply powerRZ_lt. lra. Qed.

Lemma pow2_add (a b : Z) : powerRZ 2 (a + b) = powerRZ 2 a * powerRZ 2 b.
Proof. apply powerRZ_add. lra. Qed.

Lemma IZR_pow2 (k : Z) : (0 <= k)%Z -> IZR (2 ^ k) = powerRZ 2 k.
Proof.
  intros Hk. destruct k as [|p|p]; [done| |lia].
  change (2 ^ Z.pos p)%Z with (Z.pow_pos 2 p). apply Zpower_pos_powerRZ.
Qed.

(** The standard model of a faithful rounding: if [t] lies between the
    integer [n] and its successor, [n] having 53 bits, either of the two is
    within a relative error [eps] of [t]. *)
Lemma faithful (n r : Z) (t : R) :
  (2 ^ 52 <= n)%Z -> (r = n \/ r = n + 1)%Z -> IZR n <= t < IZR n + 1 ->
  (1 - eps) * t <= IZR r <= (1 + eps) * t.
Proof.
  intros Hn Hr [Hlo Hhi].
  assert (Hn' : 4503599627370496 <= IZR n) by (apply IZR_le in Hn; exact Hn).
  assert (He : 1 <= eps * IZR n).
  { unfold eps. apply (Rmult_le_reg_l 4503599627370496); [lra|].
    rewrite <- Rmult_assoc, Rinv_r by lra. lra. }
  assert (Het : eps * IZR n <= eps * t).
  { apply Rmult_le_compat_l; [apply Rlt_le, eps_pos | done]. }
  destruct Hr as [-> | ->]; [|rewrite plus_IZR]; lra.
Qed.

Lemma B2R_scaled (r e1 : Z) (p : positive) (e : Z) :
  (Z.pos p * 2 ^ (e - e1) = r)%Z -> (e1 <= e)%Z ->
  B2R (S754_finite false p e) = IZR r * powerRZ 2 e1.
Proof.
  intros <- He. cbn [B2R].
  rewrite mult_IZR, IZR_pow2 by lia.
  replace e with ((e - e1) + e1)%Z at 1 by lia.
  rewrite pow2_add. lra.
Qed.

Lemma B2R_pos (p : positive) (e : Z) : 0 < B2R (S754_finite false p e).
Proof.
  cbn [B2R]. pose proof (pow2_pos e).
  assert (0 < IZR (Z.pos p)) by (apply IZR_lt; lia). nra.
Qed.

Lemma IZR_ge_pow52 (n : Z) : (2 ^ 52 <= n)%Z -> 1 <= eps * IZR n.
Proof.
  intros Hn. apply IZR_le in Hn.
  unfold eps. apply (Rmult_le_reg_l 4503599627370496); [lra|].
  rewrite <- Rmult_assoc, Rinv_r by lra.
  change (IZR (2 ^ 52)) with 4503599627370496 in Hn. lra.
Qed.

(** Square root: the square of the result is within [(1 ± eps)^2] of the
    argument. *)
Lemma sqrt_accurate (m : positive) (e : Z) :
  ge_one (S754_finite false m e) ->
  exists p e2, SF64sqrt (S754_finite false m e) = S754_finite false p e2 /\
    Zdigits2 (Z.pos p) = 53%Z /\ (e / 2 - 26 <= e2 <= e / 2 - 25)%Z /\
    let vs := B2R (S754_finite false m e) in
    let vm := B2R (S754_finite false p e2) in
    (1 - eps) * (1 - eps) * (vm * vm) <= vs <= (1 + eps) * (1 + eps) * (vm * vm).
Proof.
  intros Hge.
  destruct (sqrt_bracket m e Hge) as (p & e2 & Hsq & [Hdp _] & He2 & HM).
  destruct Hge as [Hd He].
  destruct (sqrt_core m e Hd He) as [Hq _].
  set (E := (e / 2 - 26)%Z) in *.
  set (X := (Z.pos m * 2 ^ (e - 2 * E))%Z) in *.
  set (q := Z.sqrt X) in *.
  exists p, e2. split; [done|]. split; [done|]. split; [lia|].
  intros vs vm.
  set (M := (Z.pos p * 2 ^ (e2 - E))%Z) in *.
  assert (HX : (0 <= X)%Z) by (unfold X; lia).
  pose proof (Z.sqrt_spec X HX) as [Hlo Hhi]. fold q in Hlo, Hhi.
  assert (HMX : ((M - 1) * (M - 1) <= X <= (M + 1) * (M + 1))%Z).
  { destruct HM as [-> | ->]; nia. }
  assert (HM52 : (2 ^ 52 <= M)%Z) by lia.
  pose proof (IZR_ge_pow52 M HM52) as HeM.
  destruct HMX as [HX1 HX2].
  apply IZR_le in HX1, HX2.
  rewrite mult_IZR, minus_IZR in HX1. rewrite mult_IZR, plus_IZR in HX2.
  set (T := powerRZ 2 E).
  assert (HT : 0 < T) by apply pow2_pos.
  assert (Hvm : vm = IZR M * T).
  { unfold vm, T. apply B2R_scaled; [done | lia]. }
  assert (Hvs : vs = IZR X * (T * T)).
  { unfold vs, X, T. cbn [B2R]. halves e.
    rewrite mult_IZR, IZR_pow2 by (unfold E; lia).
    rewrite <- !pow2_add, Rmult_1_l, Rmult_assoc, <- pow2_add.
    do 2 f_equal. lia. }
  rewrite Hvm, Hvs.
  assert (HM0 : 0 < IZR M) by (apply IZR_lt; lia).
  pose proof eps_pos as Hep. unfold eps in Hep |- *.
  assert (HTT : 0 < T * T) by nra.
  split.
  - replace ((1 - / 4503599627370496) * (1 - / 4503599627370496) *
               (IZR M * T * (IZR M * T)))
      with (((1 - / 4503599627370496) * IZR M) *
            ((1 - / 4503599627370496) * IZR M) * (T * T)) by ring.
    apply Rmult_le_compat_r; [lra|].
    unfold eps in HeM. etrans; [|exact HX1]. nra.
  - replace ((1 + / 4503599627370496) * (1 + / 4503599627370496) *
               (IZR M * T * (IZR M * T)))
      with (((1 + / 4503599627370496) * IZR M) *
            ((1 + / 4503599627370496) * IZR M) * (T * T)) by ring.
    apply Rmult_le_compat_r; [lra|].
    unfold eps in HeM. etrans; [exact HX2|]. nra.
Qed.

(** Product, away from overflow: relative error at most [eps]. *)
Lemma mul_accurate (mx my : positive) (ex ey : Z) :
  ge_one (S754_finite false mx ex) -> ge_one (S754_finite false my ey) ->
  (ex + ey <= 860)%Z ->
  exists p e,
    SF64mul (S754_finite false mx ex) (S754_finite false my ey)
    = S754_finite false p e /\
    Zdigits2 (Z.pos p) = 53%Z /\ (52 + ex + ey <= e <= 54 + ex + ey)%Z /\
    let vx := B2R (S754_finite false mx ex) in
    let vy := B2R (S754_finite false my ey) in
    let vp := B2R (S754_finite false p e) in
    (1 - eps) * (vx * vy) <= vp <= (1 + eps) * (vx * vy).
Proof.
  intros Hx Hy Hsum.
  destruct (mul_bracket mx my ex ey Hx Hy) as (HdP & HN & r & Hr & Hmul).
  set (P := (Z.pos mx * Z.pos my)%Z) in *.
  set (k := (Zdigits2 P - 53)%Z) in *.
  set (E := (Zdigits2 P + ex + ey - 53)%Z) in *.
  set (N := (P / 2 ^ k)%Z) in *.
  destruct (normal_out_inv false r E _ ltac:(lia) (eq_sym Hmul))
    as [Hinf | (p & e & -> & Hdp & He & Hmax & Hv)].
  { exfalso. rewrite Hmul in Hinf. revert Hinf. unfold normal_out, mk.
    destruct (r =? 2 ^ 53)%Z;
      match goal with |- context [(?a <=? ?b)%Z] =>
        destruct (Z.leb_spec a b) end; try done; unfold E in *; b64; lia. }
  exists p, e. split; [done|]. split; [done|]. split; [unfold E in *; lia|].
  intros vx vy vp.
  assert (Hk : (0 <= k)%Z) by (unfold k; lia).
  assert (H2k : (0 < 2 ^ k)%Z) by (apply Z.pow_pos_nonneg; lia).
  assert (Hdiv : (N * 2 ^ k <= P < (N + 1) * 2 ^ k)%Z).
  { unfold N. pose proof (Z.mul_div_le P (2 ^ k) H2k).
    pose proof (Z.mul_succ_div_gt P (2 ^ k) H2k). lia. }
  set (T := powerRZ 2 k).
  assert (HT : 0 < T) by apply pow2_pos.
  set (t := IZR P / T).
  assert (Ht : IZR N <= t < IZR N + 1).
  { destruct Hdiv as [H1 H2]. apply IZR_le in H1. apply IZR_lt in H2.
    rewrite mult_IZR, IZR_pow2 in H1 by done.
    rewrite mult_IZR, plus_IZR, IZR_pow2 in H2 by done.
    fold T in H1, H2. unfold t. split.
    - apply (Rmult_le_reg_r T); [done|]. unfold Rdiv.
      rewrite Rmult_assoc, Rinv_l by lra. lra.
    - apply (Rmult_lt_reg_r T); [done|]. unfold Rdiv.
      rewrite Rmult_assoc, Rinv_l by lra. lra. }
  pose proof (faithful N r t ltac:(lia) Hr Ht) as Hf.
  set (U := powerRZ 2 E).
  assert (HU : 0 < U) by apply pow2_pos.
  assert (Hvp : vp = IZR r * U).
  { unfold vp, U. apply B2R_scaled; [done | lia]. }
  assert (Hxy : vx * vy = t * U).
  { unfold vx, vy, t, U, P. cbn [B2R]. rewrite mult_IZR.
    replace E with (k + (ex + ey))%Z by (unfold E, k; lia).
    rewrite !pow2_add. fold T. field. lra. }
  rewrite Hvp, Hxy. destruct Hf as [Hf1 Hf2]. split.
  - rewrite <- Rmult_assoc. apply Rmult_le_compat_r; lra.
  - rewrite <- Rmult_assoc. apply Rmult_le_compat_r; lra.
Qed.

(** Quotient of two normal doubles, away from overflow and underflow:
    relative error at most [eps]. *)
Lemma div_accurate (mx my : positive) (ex ey : Z) :
  Zdigits2 (Z.pos mx) = 53%Z -> Zdigits2 (Z.pos my) = 53%Z ->
  (-1000 <= ex - ey <= 900)%Z ->
  exists p e,
    SF64div (S754_finite false mx ex) (S754_finite false my ey)
    = S754_finite false p e /\
    Zdigits2 (Z.pos p) = 53%Z /\ (ex - ey - 53 <= e <= ex - ey - 51)%Z /\
    let vx := B2R (S754_finite false mx ex) in
    let vy := B2R (S754_finite false my ey) in
    let vd := B2R (S754_finite false p e) in
    (1 - eps) * vx <= vd * vy <= (1 + eps) * vx.
Proof.
  intros Hdx Hdy Hexp.
  destruct (div_bracket mx my ex ey Hdx Hdy ltac:(b64; lia))
    as (Hk & Hq & HN & r & Hr & Hdiv).
  set (q := (Z.pos mx * 2 ^ 53 / Z.pos my)%Z) in *.
  set (k := (Zdigits2 q - 53)%Z) in *.
  set (N := (q / 2 ^ k)%Z) in *.
  set (E := (k + (ex - ey - 53))%Z) in *.
  destruct (normal_out_inv false r E _ ltac:(lia) (eq_sym Hdiv))
    as [Hinf | (p & e & -> & Hdp & He & Hmax & Hv)].
  { exfalso. rewrite Hdiv in Hinf. revert Hinf. unfold normal_out, mk.
    destruct (r =? 2 ^ 53)%Z;
      match goal with |- context [(?a <=? ?b)%Z] =>
        destruct (Z.leb_spec a b) end; try done; unfold E in *; b64; lia. }
  exists p, e. split; [done|]. split; [done|]. split; [unfold E in *; lia|].
  intros vx vy vd.
  assert (H2k : (0 < 2 ^ k)%Z) by (apply Z.pow_pos_nonneg; lia).
  assert (Hq1 : (q * Z.pos my <= Z.pos mx * 2 ^ 53 < (q + 1) * Z.pos my)%Z).
  { unfold q. pose proof (Z.mul_div_le (Z.pos mx * 2 ^ 53) (Z.pos my) eq_refl).
    pose proof (Z.mul_succ_div_gt (Z.pos mx * 2 ^ 53) (Z.pos my) eq_refl). lia. }
  assert (Hq2 : (N * 2 ^ k <= q < (N + 1) * 2 ^ k)%Z).
  { unfold N. pose proof (Z.mul_div_le q (2 ^ k) H2k).
    pose proof (Z.mul_succ_div_gt q (2 ^ k) H2k). lia. }
  assert (Hint : (N * (2 ^ k * Z.pos my) <= Z.pos mx * 2 ^ 53
                  < (N + 1) * (2 ^ k * Z.pos my))%Z) by nia.
  set (Y := IZR (2 ^ k * Z.pos my) / 9007199254740992).
  assert (HY : 0 < Y).
  { unfold Y. apply Rdiv_lt_0_compat; [|lra]. apply IZR_lt. lia. }
  set (t := IZR (Z.pos mx) / Y).
  assert (Ht : IZR N <= t < IZR N + 1).
  { destruct Hint as [H1 H2]. apply IZR_le in H1. apply IZR_lt in H2.
    rewrite !mult_IZR in H1. rewrite !mult_IZR, plus_IZR in H2.
    change (IZR (2 ^ 53)) with 9007199254740992 in H1, H2.
    unfold t, Y. rewrite mult_IZR.
    assert (0 < IZR (2 ^ k) * IZR (Z.pos my)).
    { rewrite <- mult_IZR. apply IZR_lt. lia. }
    split.
    - apply (Rmult_le_reg_r (IZR (2 ^ k) * IZR (Z.pos my) / 9007199254740992)).
      { apply Rdiv_lt_0_compat; lra. }
      unfold Rdiv at 2. rewrite Rmult_assoc, Rinv_l by (unfold Rdiv; nra).
      unfold Rdiv. lra.
    - apply (Rmult_lt_reg_r (IZR (2 ^ k) * IZR (Z.pos my) / 9007199254740992)).
      { apply Rdiv_lt_0_compat; lra. }
      unfold Rdiv at 1. rewrite Rmult_assoc, Rinv_l by (unfold Rdiv; nra).
      unfold Rdiv. lra. }
  pose proof (faithful N r t ltac:(lia) Hr Ht) as [Hf1 Hf2].
  set (U := powerRZ 2 ex).
  assert (HU : 0 < U) by apply pow2_pos.
  assert (Hvx : vx = t * Y * U).
  { unfold vx, t, U. cbn [B2R]. field. lra. }
  assert (Hvd : vd * vy = IZR r * Y * U).
  { unfold vd. rewrite (B2R_scaled r E p e Hv ltac:(lia)).
    unfold vy, Y, U, E. cbn [B2R]. rewrite mult_IZR, IZR_pow2 by lia.
    replace ex with (53 + (ex - ey - 53) + ey)%Z at 2 by lia.
    rewrite !pow2_add, <- (IZR_pow2 53) by lia.
    change (IZR (2 ^ 53)) with 9007199254740992. field. }
  rewrite Hvx, Hvd. split.
  - rewrite <- !Rmult_assoc. apply Rmult_le_compat_r; [lra|].
    apply Rmult_le_compat_r; lra.
  - rewrite <- !Rmult_assoc. apply Rmult_le_compat_r; [lra|].
    apply Rmult_le_compat_r; lra.
Qed.

(** Dividing a double [s >= 1] by the rounded square of its rounded square
    root gives 1 up to [8 * eps = 2^-49]. *)
Lemma self_quotient (ms : positive) (es : Z) :
  Zdigits2 (Z.pos ms) = 53%Z -> (-52 <= es <= 75)%Z ->
  exists m pd ed,
    PyFloat.sqrt (S754_finite false ms es) = Ok m /\ ge_one m /\
    PyFloat.div (S754_finite false ms es) (PyFloat.mul m m)
    = Ok (S754_finite false pd ed) /\
    1 - 8 * eps <= B2R (S754_finite false pd ed) <= 1 + 8 * eps.
Proof.
  intros Hds Hes. halves es.
  assert (Hs : ge_one (S754_finite false ms es)) by (split; [done | b64; lia]).
  destruct (sqrt_accurate ms es Hs) as (p1 & e2 & Hsq & Hd1 & He2 & Hacc1).
  assert (Hm : ge_one (S754_finite false p1 e2)) by (split; [done | b64; lia]).
  destruct (mul_accurate p1 p1 e2 e2 Hm Hm ltac:(lia))
    as (p2 & e3 & Hmul & Hd2 & He3 & Hacc2).
  destruct (div_accurate ms p2 es e3 Hds Hd2 ltac:(lia))
    as (pd & ed & Hdiv & Hd3 & Hed & Hacc3).
  exists (S754_finite false p1 e2), pd, ed.
  split; [by cbn [PyFloat.sqrt]; rewrite Hsq|]. split; [done|]. split.
  { unfold PyFloat.div, PyFloat.mul. rewrite Hmul, Hdiv. done. }
  cbv zeta in Hacc1, Hacc2, Hacc3.
  pose proof (B2R_pos ms es) as Hvs.
  pose proof (B2R_pos p1 e2) as Hvm.
  pose proof (B2R_pos p2 e3) as Hvp.
  pose proof (B2R_pos pd ed) as Hvd.
  set (vs := B2R (S754_finite false ms es)) in *.
  set (vm := B2R (S754_finite false p1 e2)) in *.
  set (vp := B2R (S754_finite false p2 e3)) in *.
  set (vd := B2R (S754_finite false pd ed)) in *.
  set (W := vm * vm) in *.
  assert (HW : 0 < W) by (unfold W; nra).
  unfold eps in *.
  destruct Hacc1 as [Ha1 Ha2], Hacc2 as [Hb1 Hb2], Hacc3 as [Hc1 Hc2].
  split.
  - (* lower bound *)
    assert (H1 : (1 - / 4503599627370496) * ((1 - / 4503599627370496) *
                 (1 - / 4503599627370496) * W) <= vd * vp).
    { etrans; [|exact Hc1]. apply Rmult_le_compat_l; lra. }
    assert (H2 : vd * vp <= vd * ((1 + / 4503599627370496) * W)).
    { apply Rmult_le_compat_l; lra. }
    assert (H3 : ((1 - 8 * / 4503599627370496) * (1 + / 4503599627370496)) * W
                 <= (vd * (1 + / 4503599627370496)) * W).
    { etrans; [|etrans; [exact H1 | etrans; [exact H2 | right; ring]]].
      rewrite <- !Rmult_assoc. apply Rmult_le_compat_r; lra. }
    apply Rmult_le_reg_r in H3; [|done].
    apply Rmult_le_reg_r in H3; [done | lra].
  - (* upper bound *)
    assert (H1 : vd * vp <= (1 + / 4503599627370496) *
                 ((1 + / 4503599627370496) * (1 + / 4503599627370496) * W)).
    { etrans; [exact Hc2|]. apply Rmult_le_compat_l; lra. }
    assert (H2 : vd * ((1 - / 4503599627370496) * W) <= vd * vp).
    { apply Rmult_le_compat_l; lra. }
    assert (H3 : (vd * (1 - / 4503599627370496)) * W
                 <= ((1 + 8 * / 4503599627370496) * (1 - / 4503599627370496)) * W).
    { etrans; [right; ring_simplify; reflexivity|].
      etrans; [|etrans; [|]]; cycle 1.
      - exact H1.
      - rewrite <- !Rmult_assoc. apply Rmult_le_compat_r; lra.
      - etrans; [|exact H2]. right. ring. }
    apply Rmult_le_reg_r in H3; [|done].
    apply Rmult_le_reg_r in H3; [done | lra].
Qed.

(** Conversion of a positive integer below [2^127]: relative error at most
    [eps]. *)
Lemma of_int_accurate (n : Z) :
  (0 < n < 2 ^ 127)%Z ->
  exists m e, PyFloat.of_int n = Ok (S754_finite false m e) /\
    Zdigits2 (Z.pos m) = 53%Z /\ (-52 <= e <= 75)%Z /\
    (1 - eps) * IZR n <= B2R (S754_finite false m e) <= (1 + eps) * IZR n.
Proof.
  intros Hn.
  destruct (of_int_bracket n Hn)
    as (mz & ez & Hez & Hmz & Hk & HN & Hke & r & Hr & Hnorm).
  set (k := (Zdigits2 (Z.pos mz) - 53)%Z) in *.
  set (N := (Z.pos mz / 2 ^ k)%Z) in *.
  destruct (normal_out_finite false r (k + ez))
    as (m & e & Hout & Hdm & He & Hv); [lia | b64; lia |].
  exists m, e. split.
  { unfold PyFloat.of_int. by rewrite Hnorm, Hout. }
  split; [done|]. split; [lia|].
  assert (H2k : (0 < 2 ^ k)%Z) by (apply Z.pow_pos_nonneg; lia).
  assert (Hdiv : (N * 2 ^ k <= Z.pos mz < (N + 1) * 2 ^ k)%Z).
  { unfold N. pose proof (Z.mul_div_le (Z.pos mz) (2 ^ k) H2k).
    pose proof (Z.mul_succ_div_gt (Z.pos mz) (2 ^ k) H2k). lia. }
  set (T := powerRZ 2 k).
  assert (HT : 0 < T) by apply pow2_pos.
  set (t := IZR (Z.pos mz) / T).
  assert (Ht : IZR N <= t < IZR N + 1).
  { destruct Hdiv as [H1 H2]. apply IZR_le in H1. apply IZR_lt in H2.
    rewrite mult_IZR, IZR_pow2 in H1 by done.
    rewrite mult_IZR, plus_IZR, IZR_pow2 in H2 by done.
    fold T in H1, H2. unfold t. split.
    - apply (Rmult_le_reg_r T); [done|]. unfold Rdiv.
      rewrite Rmult_assoc, Rinv_l by lra. lra.
    - apply (Rmult_lt_reg_r T); [done|]. unfold Rdiv.
      rewrite Rmult_assoc, Rinv_l by lra. lra. }
  pose proof (faithful N r t ltac:(lia) Hr Ht) as [Hf1 Hf2].
  set (U := powerRZ 2 (k + ez)).
  assert (HU : 0 < U) by apply pow2_pos.
  rewrite (B2R_scaled r (k + ez) m e Hv ltac:(lia)). fold U.
  assert (Hnt : IZR n = t * U).
  { unfold t, U. rewrite pow2_add. fold T.
    assert (Hmz' : IZR (Z.pos mz) = IZR n * powerRZ 2 (- ez)).
    { rewrite Hmz, mult_IZR, IZR_pow2 by lia. done. }
    rewrite Hmz'. unfold Rdiv.
    replace (IZR n * powerRZ 2 (- ez) * / T * (T * powerRZ 2 ez))
      with (IZR n * (powerRZ 2 (- ez) * powerRZ 2 ez) * (T * / T)) by ring.
    rewrite <- pow2_add, Rinv_r by lra.
    replace (- ez + ez)%Z with 0%Z by lia. simpl. ring. }
  rewrite Hnt. split.
  - rewrite <- Rmult_assoc. apply Rmult_le_compat_r; lra.
  - rewrite <- Rmult_assoc. apply Rmult_le_compat_r; lra.
Qed.

End FloatAccuracy.

(* ===================================================================== *)
(** ** Integer sums *)

Section Sums.

Lemma foldl_add_acc (l : list Z) (a : Z) : foldl Z.add a l = a + py_sum l.
Proof.
  unfold py_sum. revert a.
  induction l as [|x l IH]; intros a; simpl; [lia|].
  rewrite (IH (a + x)), (IH (0 + x)). lia.
Qed.

Lemma py_sum_nil : py_sum [] = 0.
Proof. reflexivity. Qed.

Lemma py_sum_cons (x : Z) (l : list Z) : py_sum (x :: l) = x + py_sum l.
Proof. unfold py_sum at 1. simpl. apply foldl_add_acc. Qed.

Lemma py_sum_app (l1 l2 : list Z) : py_sum (l1 ++ l2) = py_sum l1 + py_sum l2.
Proof.
  induction l1 as [|x l1 IH]; simpl; [rewrite py_sum_nil; lia|].
  rewrite !py_sum_cons, IH. lia.
Qed.

Lemma py_sum_nonneg (l : list Z) : Forall (fun x => 0 <= x) l -> 0 <= py_sum l.
Proof.
  induction 1 as [|x l Hx _ IH]; [done|]. rewrite py_sum_cons. lia.
Qed.

Lemma py_sum_zero (l : list Z) : Forall (fun x => x = 0) l -> py_sum l = 0.
Proof.
  induction 1 as [|x l Hx _ IH]; [done|]. rewrite py_sum_cons. lia.
Qed.

(** For non-negative entries the sum of the squares is at most the
    square of the sum. *)
Lemma py_sum_squares_le (l : list Z) :
  Forall (fun x => 0 <= x) l ->
  0 <= py_sum (squares l) <= py_sum l * py_sum l.
Proof.
  induction 1 as [|x l Hx Hl IH]; [done|].
  unfold squares in *. rewrite fmap_cons, !py_sum_cons.
  pose proof (py_sum_nonneg l Hl). nia.
Qed.

Lemma products_fmap {A : Type} (f g : A -> Z) (l : list A) :
  products (f <$> l) (g <$> l) = (fun w => f w * g w) <$> l.
Proof.
  unfold products. induction l as [|x l IH]; [done|].
  simpl. f_equal. done.
Qed.

Lemma squares_fmap {A : Type} (f : A -> Z) (l : list A) :
  squares (f <$> l) = (fun w => f w * f w) <$> l.
Proof. unfold squares. rewrite <- list_fmap_compose. done. Qed.

Lemma py_sum_fmap_foldr {A : Type} (f : A -> Z) (l : list A) :
  py_sum (f <$> l) = foldr (fun w acc => f w + acc) 0 l.
Proof.
  induction l as [|x l IH]; [done|]. rewrite fmap_cons, py_sum_cons, IH. done.
Qed.

Lemma py_sum_fmap_le {A : Type} (f g : A -> Z) (l : list A) :
  (forall x, f x <= g x) -> py_sum (f <$> l) <= py_sum (g <$> l).
Proof.
  intros Hfg. induction l as [|x l IH]; [done|].
  rewrite !fmap_cons, !py_sum_cons. specialize (Hfg x). lia.
Qed.

Lemma py_sum_fmap_add {A : Type} (f g : A -> Z) (l : list A) :
  py_sum ((fun x => f x + g x) <$> l) = py_sum (f <$> l) + py_sum (g <$> l).
Proof.
  induction l as [|x l IH]; [done|].
  rewrite !fmap_cons, !py_sum_cons. lia.
Qed.

End Sums.

(* ===================================================================== *)
(** ** The engine against the quantities of the specification *)

Section CosineFacts.
Context {K : Type} `{Countable K}.
Implicit Types a b : gmap K Z.
Implicit Types w : K.

Lemma get_not_in_dom a w : w ∉ dom a -> get a w = 0.
Proof. intros Hw. unfold get. by rewrite (not_elem_of_dom_1 a w Hw). Qed.

Lemma get_lookup a w c : a !! w = Some c -> get a w = c.
Proof. intros Hw. unfold get. by rewrite Hw. Qed.

Lemma get_nonneg a w : map_Forall (fun _ c => 0 <= c) a -> 0 <= get a w.
Proof.
  intros Ha. unfold get. destruct (a !! w) as [c|] eqn:Hw; simpl; [|lia].
  exact (Ha w c Hw).
Qed.

Lemma elements_dom a : elements (dom a) ≡ₚ (map_to_list a).*1.
Proof.
  apply NoDup_Permutation.
  - apply NoDup_elements.
  - apply NoDup_fst_map_to_list.
  - intros w. rewrite elem_of_elements, elem_of_dom, list_elem_of_fmap.
    split.
    + intros [c Hc]. exists (w, c). split; [done|].
      by apply elem_of_map_to_list.
    + intros [[w' c] [-> Hc]]. exists c. by apply elem_of_map_to_list.
Qed.

(** A fold over the entries of a mapping is the sum over its keys. *)
Lemma map_fold_sum (g : Z -> Z) a :
  map_fold (fun _ c acc => g c + acc) 0 a
  = py_sum ((fun w => g (get a w)) <$> elements (dom a)).
Proof.
  rewrite map_fold_foldr, elements_dom, <- list_fmap_compose.
  rewrite py_sum_fmap_foldr.
  assert (Hin : Forall (fun kc => a !! kc.1 = Some kc.2) (map_to_list a)).
  { apply Forall_forall. intros [w c] Hwc. by apply elem_of_map_to_list. }
  induction Hin as [|[w c] l Hwc _ IH]; [done|].
  simpl in *. rewrite IH, (get_lookup a w c Hwc). done.
Qed.

(** Tokens outside a vector's keys add nothing to a sum over a larger
    vocabulary. *)
Lemma sum_over_union (g : Z -> Z) a (X : gset K) :
  g 0 = 0 ->
  py_sum ((fun w => g (get a w)) <$> elements (dom a ∪ X))
  = py_sum ((fun w => g (get a w)) <$> elements (dom a)).
Proof.
  intros Hg.
  assert (Heq : dom a ∪ X = dom a ∪ (X ∖ dom a)).
  { apply set_eq. intros w. rewrite !elem_of_union, elem_of_difference.
    destruct (decide (w ∈ dom a)); tauto. }
  assert (Hdisj : dom a ## X ∖ dom a).
  { intros w Hw1 Hw2. apply elem_of_difference in Hw2. tauto. }
  rewrite Heq, (elements_disj_union _ _ Hdisj).
  rewrite fmap_app, py_sum_app.
  rewrite (py_sum_zero ((fun w => g (get a w)) <$> elements (X ∖ dom a))); [lia|].
  apply Forall_fmap, Forall_forall. intros w Hw. simpl.
  apply elem_of_elements, elem_of_difference in Hw as [_ Hw].
  by rewrite get_not_in_dom.
Qed.

Lemma sum_squares_alt a :
  sum_squares a = py_sum ((fun w => get a w * get a w) <$> elements (dom a)).
Proof. unfold sum_squares. apply (map_fold_sum (fun c => c * c)). Qed.

Lemma total_alt a : total a = py_sum (get a <$> elements (dom a)).
Proof. unfold total. apply (map_fold_sum (fun c => c)). Qed.

Lemma dot_alt a b :
  dot a b = py_sum ((fun w => get a w * get b w) <$> elements (dom a ∪ dom b)).
Proof. unfold dot, set_fold. simpl. by rewrite py_sum_fmap_foldr. Qed.

(** The vectors built over the union vocabulary give the quantities of
    the specification. *)
Lemma vector1_squares a b :
  py_sum (squares (get a <$> elements (all_words a b))) = sum_squares a.
Proof.
  rewrite squares_fmap, sum_squares_alt. unfold all_words.
  apply (sum_over_union (fun c => c * c)). done.
Qed.

Lemma vector2_squares a b :
  py_sum (squares (get b <$> elements (all_words a b))) = sum_squares b.
Proof.
  rewrite squares_fmap, sum_squares_alt. unfold all_words.
  rewrite (union_comm_L (dom a) (dom b)).
  apply (sum_over_union (fun c => c * c)). done.
Qed.

Lemma vectors_dot a b :
  py_sum (products (get a <$> elements (all_words a b))
                   (get b <$> elements (all_words a b))) = dot a b.
Proof. by rewrite products_fmap, dot_alt. Qed.

(** [calculate_cosine_similarity] in terms of [norm] and [dot]. *)
Lemma calculate_cosine_similarity_unfold a b :
  calculate_cosine_similarity a b =
    magnitude1 ← norm a;
    magnitude2 ← norm b;
    if PyFloat.eqb magnitude1 PyFloat.zero || PyFloat.eqb magnitude2 PyFloat.zero
    then Ok PyFloat.zero
    else d ← PyFloat.of_int (dot a b);
         PyFloat.div d (PyFloat.mul magnitude1 magnitude2).
Proof.
  unfold calculate_cosine_similarity, cosine_over, norm.
  by rewrite vector1_squares, vector2_squares, vectors_dot.
Qed.

(** The result does not depend on the order in which the set [all_words]
    is iterated. *)
Lemma cosine_over_Permutation (ws ws' : list K) a b :
  ws ≡ₚ ws' -> cosine_over ws a b = cosine_over ws' a b.
Proof.
  intros Hp. unfold cosine_over.
  rewrite !products_fmap, !squares_fmap.
  assert (Hsum : forall f : K -> Z, py_sum (f <$> ws) = py_sum (f <$> ws')).
  { intros f. by rewrite Hp. }
  by rewrite !Hsum.
Qed.

(** *** Frequency vectors stay within the range of a double *)

Lemma fv_total_nonneg a : frequency_vector a -> 0 <= total a.
Proof.
  intros [Hpos _]. rewrite total_alt. apply py_sum_nonneg.
  apply Forall_fmap, Forall_forall. intros w _. by apply get_nonneg.
Qed.

Lemma fv_sum_squares a :
  frequency_vector a -> 0 <= sum_squares a <= sys_maxsize * sys_maxsize.
Proof.
  intros Ha. pose proof (fv_total_nonneg a Ha) as Ht. destruct Ha as [Hpos Hmax].
  rewrite sum_squares_alt, <- squares_fmap.
  assert (Hc : Forall (fun x => 0 <= x) (get a <$> elements (dom a))).
  { apply Forall_fmap, Forall_forall. intros w _. by apply get_nonneg. }
  pose proof (py_sum_squares_le _ Hc) as [Hlo Hhi].
  rewrite <- total_alt in Hhi. split; [done|]. nia.
Qed.

Lemma fv_dot a b :
  frequency_vector a -> frequency_vector b ->
  0 <= dot a b <= sum_squares a + sum_squares b.
Proof.
  intros [Ha _] [Hb _]. rewrite dot_alt. split.
  - apply py_sum_nonneg, Forall_fmap, Forall_forall. intros w _. simpl.
    pose proof (get_nonneg a w Ha). pose proof (get_nonneg b w Hb). nia.
  - etrans.
    + apply (py_sum_fmap_le _
        (fun w => get a w * get a w + get b w * get b w)).
      intros w. nia.
    + rewrite py_sum_fmap_add.
      rewrite (sum_over_union (fun c => c * c) a (dom b)) by done.
      rewrite (union_comm_L (dom a) (dom b)).
      rewrite (sum_over_union (fun c => c * c) b (dom a)) by done.
      rewrite <- !sum_squares_alt. done.
Qed.

Lemma maxsize_square : sys_maxsize * sys_maxsize + sys_maxsize * sys_maxsize < 2 ^ 1023.
Proof. by vm_compute. Qed.

Lemma norm_fv a :
  frequency_vector a ->
  (sum_squares a = 0 /\ norm a = Ok PyFloat.zero) \/
  (0 < sum_squares a /\ exists m, norm a = Ok m /\ Binary64.ge_one m).
Proof.
  intros Ha. apply FloatFacts.math_sqrt_range.
  pose proof (fv_sum_squares a Ha). pose proof maxsize_square.
  assert (0 <= sys_maxsize * sys_maxsize) by (by vm_compute). lia.
Qed.

Lemma dot_fv a b :
  frequency_vector a -> frequency_vector b ->
  exists d, PyFloat.of_int (dot a b) = Ok d.
Proof.
  intros Ha Hb. apply FloatFacts.of_int_range.
  pose proof (fv_sum_squares a Ha). pose proof (fv_sum_squares b Hb).
  pose proof (fv_dot a b Ha Hb). pose proof maxsize_square. lia.
Qed.

(** No exception on frequency vectors: no overflow, no domain error and no
    division by zero. *)
Lemma cosine_fv_ok a b :
  frequency_vector a -> frequency_vector b ->
  exists f, calculate_cosine_similarity a b = Ok f.
Proof.
  intros Ha Hb. rewrite calculate_cosine_similarity_unfold.
  destruct (norm_fv a Ha) as [[_ ->] | [_ (m1 & -> & Hm1)]]; cbn.
  { destruct (norm_fv b Hb) as [[_ ->] | [_ (m2 & -> & Hm2)]]; cbn; by eexists. }
  destruct (norm_fv b Hb) as [[_ ->] | [_ (m2 & -> & Hm2)]]; cbn.
  { rewrite orb_true_r. by eexists. }
  rewrite !FloatFacts.ge_one_nonzero by done. cbn.
  destruct (dot_fv a b Ha Hb) as [d ->]. cbn.
  pose proof (FloatFacts.mul_ge_one m1 m2 Hm1 Hm2) as Hmul.
  unfold PyFloat.div.
  destruct (PyFloat.mul m1 m2) as [|[]| |[] m e]; try done; by eexists.
Qed.

Lemma dot_disjoint a b : dom a ## dom b -> dot a b = 0.
Proof.
  intros Hdisj. rewrite dot_alt. apply py_sum_zero.
  apply Forall_fmap, Forall_forall. intros w _. simpl.
  destruct (decide (w ∈ dom a)) as [Hw | Hw].
  - rewrite (get_not_in_dom b w); [lia|]. intros Hw'. exact (Hdisj w Hw Hw').
  - rewrite (get_not_in_dom a w Hw). lia.
Qed.

Lemma dot_comm a b : dot a b = dot b a.
Proof.
  rewrite !dot_alt, (union_comm_L (dom a) (dom b)).
  f_equal. apply list_fmap_ext. intros _ w _. lia.
Qed.

Lemma sum_squares_nonneg a : 0 <= sum_squares a.
Proof.
  rewrite sum_squares_alt. apply py_sum_nonneg, Forall_fmap, Forall_forall.
  intros w _. simpl. nia.
Qed.

(** *** [Counter] *)


Lemma total_insert a w c :
  total (<[ w := c ]> a) = total a - get a w + c.
Proof.
  unfold total.
  assert (Hcomm : forall (m : gmap K Z) (j1 j2 : K) (z1 z2 y : Z),
    j1 <> j2 -> m !! j1 = Some z1 -> m !! j2 = Some z2 ->
    z1 + (z2 + y) = z2 + (z1 + y)) by (intros; lia).
  destruct (a !! w) as [c0|] eqn:Hw.
  - rewrite <- insert_delete_eq.
    rewrite map_fold_insert_L by (apply Hcomm || apply lookup_delete_eq).
    rewrite (map_fold_delete_L _ 0 w c0 a) by (apply Hcomm || done).
    rewrite (get_lookup a w c0 Hw). lia.
  - rewrite map_fold_insert_L by (apply Hcomm || done).
    unfold get. rewrite Hw. simpl. lia.
Qed.

Lemma get_insert a w w' c :
  get (<[ w := c ]> a) w' = if decide (w = w') then c else get a w'.
Proof.
  unfold get. destruct (decide (w = w')) as [-> | Hne].
  - by rewrite lookup_insert_eq.
  - by rewrite lookup_insert_ne.
Qed.

Lemma Counter_fold_positive (ws : list K) a :
  map_Forall (fun _ c => 0 < c) a ->
  map_Forall (fun _ c => 0 < c)
    (foldl (fun m w => <[ w := get m w + 1 ]> m) a ws).
Proof.
  revert a. induction ws as [|w ws IH]; intros a Ha; [done|].
  simpl. apply IH. apply map_Forall_insert_2; [|done].
  assert (0 <= get a w); [|lia].
  apply get_nonneg. intros k c Hk. specialize (Ha k c Hk). simpl in Ha. lia.
Qed.

Lemma Counter_fold_total (ws : list K) a :
  total (foldl (fun m w => <[ w := get m w + 1 ]> m) a ws)
  = total a + Z.of_nat (length ws).
Proof.
  revert a. induction ws as [|w ws IH]; intros a; simpl; [lia|].
  rewrite IH, total_insert. lia.
Qed.

Lemma Counter_fold_get (ws : list K) a w :
  get (foldl (fun m w => <[ w := get m w + 1 ]> m) a ws) w
  = get a w + occurrences w ws.
Proof.
  unfold occurrences.
  revert a. induction ws as [|x ws IH]; intros a; simpl; [lia|].
  rewrite IH, get_insert. destruct (decide (x = w)) as [-> | Hne].
  - rewrite filter_cons_True by done. simpl length. lia.
  - rewrite filter_cons_False by done. lia.
Qed.

Lemma Counter_positive (ws : list K) :
  map_Forall (fun _ c => 0 < c) (Counter ws).
Proof. apply Counter_fold_positive. apply map_Forall_empty. Qed.

Lemma Counter_total (ws : list K) : total (Counter ws) = Z.of_nat (length ws).
Proof. unfold Counter. rewrite Counter_fold_total. done. Qed.

Lemma Counter_get (ws : list K) w : get (Counter ws) w = occurrences w ws.
Proof. unfold Counter. rewrite Counter_fold_get. done. Qed.

Lemma Counter_frequency_vector (ws : list K) :
  Z.of_nat (length ws) <= sys_maxsize -> frequency_vector (Counter ws).
Proof.
  intros Hlen. split.
  - intros w c Hw. pose proof (Counter_positive ws w c Hw). simpl in *. lia.
  - by rewrite Counter_total.
Qed.

Lemma norm_empty : norm (K := K) ∅ = Ok PyFloat.zero.
Proof. reflexivity. Qed.

Lemma cosine_empty_l b :
  frequency_vector b -> calculate_cosine_similarity ∅ b = Ok PyFloat.zero.
Proof.
  intros Hb. rewrite calculate_cosine_similarity_unfold, norm_empty. cbn.
  destruct (norm_fv b Hb) as [[_ ->] | [_ (m & -> & _)]]; done.
Qed.

Lemma cosine_empty_r a :
  frequency_vector a -> calculate_cosine_similarity a ∅ = Ok PyFloat.zero.
Proof.
  intros Ha. rewrite calculate_cosine_similarity_unfold, norm_empty.
  destruct (norm_fv a Ha) as [[_ ->] | [_ (m & -> & _)]]; cbn;
    by rewrite ?orb_true_r.
Qed.

End CosineFacts.

(* ===================================================================== *)
(** ** Properties of the similarity engine *)

(** A real bound around 1 as the integer test [within]. *)
Lemma within_one (p : positive) (e : Z) :
  (1 - 8 * Binary64.eps <= Binary64.B2R (S754_finite false p e)
   <= 1 + 8 * Binary64.eps)%R ->
  within (S754_finite false p e) 1 1 49 = true.
Proof.
  unfold Binary64.eps, within, PyFloat.to_frac. cbn [Binary64.B2R].
  rewrite Rmult_1_l. intros [Hlo Hhi].
  destruct (Z.leb_spec 0 e) as [He | He].
  - (* an integer value: it can only be 1 *)
    assert (Hn : IZR (Z.pos p * 2 ^ e) = (IZR (Z.pos p) * powerRZ 2 e)%R).
    { by rewrite mult_IZR, FloatAccuracy.IZR_pow2. }
    rewrite <- Hn in Hlo, Hhi.
    assert (Z.pos p * 2 ^ e < 2) by (apply lt_IZR; lra).
    assert (0 < Z.pos p * 2 ^ e) by (apply lt_IZR; lra).
    apply Z.leb_le. lia.
  - (* a fraction p / 2^(-e) *)
    set (q := 2 ^ (- e)).
    assert (Hq : (0 < IZR q)%R).
    { unfold q. rewrite FloatAccuracy.IZR_pow2 by lia.
      apply FloatAccuracy.pow2_pos. }
    assert (Hv : (IZR (Z.pos p) * powerRZ 2 e = IZR (Z.pos p) / IZR q)%R).
    { unfold q. rewrite FloatAccuracy.IZR_pow2 by lia.
      rewrite powerRZ_neg'. replace (- - e) with e by lia. unfold Rdiv.
      rewrite Rinv_inv. done. }
    rewrite Hv in Hlo, Hhi.
    assert (Hlo' : (IZR q - IZR q / 562949953421312 <= IZR (Z.pos p))%R).
    { apply (Rmult_le_compat_r (IZR q)) in Hlo; [|lra].
      unfold Rdiv in Hlo. rewrite Rmult_assoc, Rinv_l, Rmult_1_r in Hlo by lra.
      lra. }
    assert (Hhi' : (IZR (Z.pos p) <= IZR q + IZR q / 562949953421312)%R).
    { apply (Rmult_le_compat_r (IZR q)) in Hhi; [|lra].
      unfold Rdiv in Hhi. rewrite Rmult_assoc, Rinv_l, Rmult_1_r in Hhi by lra.
      lra. }
    apply Z.leb_le.
    assert (H1 : (Z.pos p - q) * 2 ^ 49 <= q).
    { apply le_IZR. rewrite mult_IZR, minus_IZR.
      change (IZR (2 ^ 49)) with 562949953421312%R. lra. }
    assert (H2 : (q - Z.pos p) * 2 ^ 49 <= q).
    { apply le_IZR. rewrite mult_IZR, minus_IZR.
      change (IZR (2 ^ 49)) with 562949953421312%R. lra. }
    lia.
Qed.

Section EngineProperties.
Context {K : Type} `{Countable K}.
Implicit Types a b : gmap K Z.

(** With both norms computed and non-zero, the result is the double
    quotient of the converted dot product by the double product of the
    norms; no division by zero can occur. *)
Lemma cosine_nonzero a b (m1 m2 : PyFloat.t) :
  norm a = Ok m1 -> norm b = Ok m2 ->
  PyFloat.eqb m1 PyFloat.zero = false -> PyFloat.eqb m2 PyFloat.zero = false ->
  calculate_cosine_similarity a b =
    d ← PyFloat.of_int (dot a b); Ok (SF64div d (PyFloat.mul m1 m2)).
Proof.
  intros Hn1 Hn2 Hz1 Hz2. rewrite calculate_cosine_similarity_unfold.
  rewrite Hn1, Hn2. cbn. rewrite Hz1, Hz2. cbn.
  assert (Hge : forall (c : gmap K Z) m,
    norm c = Ok m -> PyFloat.eqb m PyFloat.zero = false -> Binary64.ge_one m).
  { intros c m Hc Hz. unfold norm in Hc.
    destruct (FloatFacts.math_sqrt_cases (sum_squares c) (sum_squares_nonneg c))
      as [Hr | [[_ Hr] | [_ (m' & Hr & Hm')]]]; rewrite Hr in Hc.
    - done.
    - injection Hc as <-. done.
    - injection Hc as <-. done. }
  pose proof (FloatFacts.mul_ge_one m1 m2 (Hge a m1 Hn1 Hz1) (Hge b m2 Hn2 Hz2))
    as Hmul.
  destruct (PyFloat.of_int (dot a b)) as [d|e]; cbn; [|done].
  unfold PyFloat.div.
  destruct (PyFloat.mul m1 m2) as [|[]| |[] m e]; done.
Qed.

(** Nothing but [OverflowError] can be raised. *)
Lemma cosine_raise a b (e : exn) :
  calculate_cosine_similarity a b = Raise e -> e = OverflowError.
Proof.
  destruct (norm a) as [m1|e1] eqn:Hn1.
  2:{ rewrite calculate_cosine_similarity_unfold, Hn1. cbn. intros [= <-].
      exact (FloatFacts.math_sqrt_raise _ _ (sum_squares_nonneg a) Hn1). }
  destruct (norm b) as [m2|e2] eqn:Hn2.
  2:{ rewrite calculate_cosine_similarity_unfold, Hn1, Hn2. cbn. intros [= <-].
      exact (FloatFacts.math_sqrt_raise _ _ (sum_squares_nonneg b) Hn2). }
  destruct (PyFloat.eqb m1 PyFloat.zero) eqn:Hz1.
  { rewrite calculate_cosine_similarity_unfold, Hn1, Hn2. cbn. by rewrite Hz1. }
  destruct (PyFloat.eqb m2 PyFloat.zero) eqn:Hz2.
  { rewrite calculate_cosine_similarity_unfold, Hn1, Hn2. cbn.
    by rewrite Hz1, Hz2. }
  rewrite (cosine_nonzero a b m1 m2 Hn1 Hn2 Hz1 Hz2).
  destruct (PyFloat.of_int (dot a b)) as [d|e'] eqn:Hd; cbn; [done|].
  intros [= <-]. exact (FloatFacts.of_int_raise _ _ Hd).
Qed.

(** C3. Symmetry: swapping the two mappings gives the same outcome, be it a
    float or an exception. *)
Theorem cosine_symmetric a b :
  calculate_cosine_similarity a b = calculate_cosine_similarity b a.
Proof.
  rewrite !calculate_cosine_similarity_unfold, (dot_comm b a).
  destruct (norm a) as [m1|e1] eqn:Hn1, (norm b) as [m2|e2] eqn:Hn2; cbn.
  - rewrite (orb_comm (PyFloat.eqb m2 _)), (FloatFacts.mul_comm m2 m1). done.
  - done.
  - done.
  - rewrite (FloatFacts.math_sqrt_raise _ _ (sum_squares_nonneg a) Hn1).
    rewrite (FloatFacts.math_sqrt_raise _ _ (sum_squares_nonneg b) Hn2). done.
Qed.

(** C6. Orthogonality: two frequency vectors without a common key have
    similarity 0.0. *)
Theorem cosine_orthogonal a b :
  frequency_vector a -> frequency_vector b -> dom a ## dom b ->
  calculate_cosine_similarity a b = Ok PyFloat.zero.
Proof.
  intros Ha Hb Hdisj. rewrite calculate_cosine_similarity_unfold.
  rewrite (dot_disjoint a b Hdisj).
  destruct (norm_fv a Ha) as [[_ ->] | [_ (m1 & -> & Hm1)]]; cbn.
  { destruct (norm_fv b Hb) as [[_ ->] | [_ (m2 & -> & Hm2)]]; done. }
  destruct (norm_fv b Hb) as [[_ ->] | [_ (m2 & -> & Hm2)]]; cbn.
  { by rewrite orb_true_r. }
  rewrite !FloatFacts.ge_one_nonzero by done. cbn.
  apply FloatFacts.div_zero_positive, FloatFacts.mul_ge_one; done.
Qed.

Lemma dot_self a : dot a a = sum_squares a.
Proof. by rewrite dot_alt, union_idemp_L, sum_squares_alt. Qed.

Lemma sum_squares_positive a :
  a <> ∅ -> map_Forall (fun _ c => 0 < c) a -> 0 < sum_squares a.
Proof.
  intros Hne Hpos. destruct (map_choose a Hne) as (w & c & Hw).
  unfold sum_squares.
  rewrite (map_fold_delete_L _ 0 w c a) by (intros; lia || done).
  pose proof (sum_squares_nonneg (delete w a)) as Hrest.
  unfold sum_squares in Hrest. specialize (Hpos w c Hw). simpl in Hpos. nia.
Qed.

(** C5. Self-similarity: for a non-empty frequency vector with positive
    counts the similarity with itself is a double within [2^-49] of 1.0. *)
Theorem self_similarity a :
  a <> ∅ -> map_Forall (fun _ c => 0 < c) a -> total a <= sys_maxsize ->
  exists f, calculate_cosine_similarity a a = Ok f /\ within f 1 1 49 = true.
Proof.
  intros Hne Hpos Htot.
  assert (Hfv : frequency_vector a).
  { split; [|done]. intros w c Hw. specialize (Hpos w c Hw). simpl in *. lia. }
  pose proof (sum_squares_positive a Hne Hpos) as HS.
  pose proof (fv_sum_squares a Hfv) as HS'.
  assert (Hmax : sys_maxsize * sys_maxsize < 2 ^ 127) by (by vm_compute).
  destruct (FloatFacts.of_int_small (sum_squares a) ltac:(lia))
    as (ms & es & Hof & Hds & Hes).
  destruct (FloatAccuracy.self_quotient ms es Hds Hes)
    as (m & pd & ed & Hsqrt & Hge & Hdiv & Hacc).
  assert (Hnorm : norm a = Ok m).
  { unfold norm, math_sqrt. rewrite Hof. exact Hsqrt. }
  pose proof (FloatFacts.ge_one_nonzero m Hge) as Hz.
  exists (S754_finite false pd ed). split.
  - rewrite (cosine_nonzero a a m m Hnorm Hnorm Hz Hz), dot_self, Hof. cbn.
    unfold PyFloat.div in Hdiv.
    destruct (PyFloat.eqb (PyFloat.mul m m) PyFloat.zero); [done|].
    exact Hdiv.
  - by apply within_one.
Qed.

End EngineProperties.

Lemma frequency_vector_yesterday : frequency_vector yesterday.
Proof.
  split; [|by vm_compute].
  unfold yesterday. repeat (apply map_Forall_insert_2; [lia|]).
  apply map_Forall_empty.
Defined.

Lemma frequency_vector_overmorrow : frequency_vector overmorrow.
Proof.
  split; [|by vm_compute].
  unfold overmorrow. repeat (apply map_Forall_insert_2; [lia|]).
  apply map_Forall_empty.
Defined.

Lemma cosine_orthogonal_witness :
  calculate_cosine_similarity yesterday overmorrow = Ok PyFloat.zero.
Proof.
  apply cosine_orthogonal.
  - exact frequency_vector_yesterday.
  - exact frequency_vector_overmorrow.
  - apply (bool_decide_unpack _). by vm_compute.
Defined.

(** C1, amended. With both norms computed and non-zero, the result is the
    dot product over the union vocabulary, converted to a double, divided in
    double precision by the double product of the two double norms. On
    [{西区:1, 共享:1, 食堂:1}] and [{西区:1, 共享:1, 吃饭:1}] the result is
    the double 0.66666666666666674, within 2^-53 of 2/3. *)
Theorem cosine_formula :
  (forall (K : Type) `(Countable K) (a b : gmap K Z) (m1 m2 : PyFloat.t),
     norm a = Ok m1 -> norm b = Ok m2 ->
     PyFloat.eqb m1 PyFloat.zero = false ->
     PyFloat.eqb m2 PyFloat.zero = false ->
     calculate_cosine_similarity a b =
       d ← PyFloat.of_int (dot a b); Ok (SF64div d (PyFloat.mul m1 m2)))
  /\ calculate_cosine_similarity canteen dinner = Ok two_thirds_up
  /\ within two_thirds_up 2 3 53 = true.
Proof.
  split; [|split].
  - intros K ? ? a b m1 m2. apply cosine_nonzero.
  - by vm_compute.
  - by vm_compute.
Qed.


Lemma cosine_formula_witness :
  calculate_cosine_similarity canteen dinner =
    d ← PyFloat.of_int (dot canteen dinner);
    Ok (SF64div d (PyFloat.mul sqrt_three sqrt_three)).
Proof.
  apply (proj1 cosine_formula); by vm_compute.
Defined.

(** C1, as stated, fails on the worked example: the result is not 2/3, and
    it is not the double nearest to 2/3 either, the value of [2 / 3]. *)
Lemma worked_example_not_two_thirds :
  calculate_cosine_similarity canteen dinner = Ok two_thirds_up
  /\ equals_ratio two_thirds_up 2 3 = false
  /\ (x ← PyFloat.of_int 2; y ← PyFloat.of_int 3; PyFloat.div x y) = Ok two_thirds
  /\ PyFloat.eqb two_thirds_up two_thirds = false.
Proof. repeat split; by vm_compute. Qed.

(** The two values above are what the machine's doubles give: the kernel's
    primitive floats evaluate [2 / (sqrt 3 * sqrt 3)] and
    [3 / (sqrt 3 * sqrt 3)] to the same floats. *)
Lemma machine_doubles_agree :
  Prim2SF (PrimFloat.div 2 (PrimFloat.mul (PrimFloat.sqrt 3) (PrimFloat.sqrt 3)))
  = two_thirds_up
  /\ Prim2SF (PrimFloat.div 3 (PrimFloat.mul (PrimFloat.sqrt 3) (PrimFloat.sqrt 3)))
     = one_up
  /\ Prim2SF (PrimFloat.div 2 3) = two_thirds.
Proof. repeat split; by vm_compute. Qed.

(** C4 at a failing input: the similarity of [{西区:1, 共享:1, 食堂:1}]
    with itself is 1.0000000000000002, above 1.0; so is that of
    [{明天:2, 空气:1, 爽:1}] with itself. *)
Theorem cosine_exceeds_one :
  calculate_cosine_similarity canteen canteen = Ok one_up
  /\ calculate_cosine_similarity tomorrow tomorrow = Ok one_up
  /\ SFltb PyFloat.one one_up = true
  /\ SFleb one_up PyFloat.one = false.
Proof. repeat split; by vm_compute. Qed.

(* ===================================================================== *)
(** ** Properties of the tokenizer and of the orchestration *)

Lemma re_sub_class_delete (cls : codepoint -> bool) (text : pystr) :
  re_sub_class cls [] text = List.filter (fun c => negb (cls c)) text.
Proof.
  induction text as [|c text IH]; [done|].
  simpl. destruct (cls c); simpl; by rewrite IH.
Qed.

Section TokenizerProperties.
Variable unicode_isalnum unicode_isspace : codepoint -> bool.
Variable jieba_state : Type.
Variable jieba_cut : pystr -> jieba_state -> list pystr * jieba_state.

Local Abbreviation keep :=
  (fun c : codepoint =>
     word_char unicode_isalnum c || space_char unicode_isspace c).
Local Abbreviation strip :=
  (re_sub_class (not_word_nor_space unicode_isalnum unicode_isspace) []).
Local Abbreviation preprocess :=
  (preprocess_text unicode_isalnum unicode_isspace jieba_cut).
Local Abbreviation similarity :=
  (calculate_similarity unicode_isalnum unicode_isspace jieba_cut).

Lemma strip_filter (text : pystr) : strip text = List.filter keep text.
Proof.
  rewrite re_sub_class_delete.
  apply List.filter_ext. intros c. unfold not_word_nor_space.
  by rewrite negb_involutive.
Qed.

Lemma preprocess_cut (text : pystr) (st : jieba_state) :
  preprocess text st = jieba_cut (strip text) st.
Proof.
  unfold preprocess_text.
  by destruct (jieba_cut (strip text) st).
Qed.

Lemma similarity_unfold (original copied : pystr) (st : jieba_state) :
  similarity original copied st =
    (calculate_cosine_similarity
       (Counter (preprocess original st).1)
       (Counter (preprocess copied (preprocess original st).2).1),
     (preprocess copied (preprocess original st).2).2).
Proof.
  unfold calculate_similarity.
  destruct (preprocess original st) as [ow st1]. cbn [fst snd].
  by destruct (preprocess copied st1) as [cw st2].
Qed.

(** C7. The first step of [preprocess_text] deletes exactly the characters
    that are neither word characters nor whitespace: what is left is the
    text filtered on [\w] or [\s], in order; the segmenter then runs on it. *)
Theorem punctuation_stripped (text : pystr) (st : jieba_state) :
  re_sub_class (not_word_nor_space unicode_isalnum unicode_isspace) [] text
    = List.filter
        (fun c => word_char unicode_isalnum c || space_char unicode_isspace c)
        text
  /\ (forall c : codepoint,
        In c (re_sub_class (not_word_nor_space unicode_isalnum unicode_isspace)
                [] text)
        <-> In c text
            /\ (word_char unicode_isalnum c = true
                \/ space_char unicode_isspace c = true))
  /\ preprocess_text unicode_isalnum unicode_isspace jieba_cut text st
     = jieba_cut
         (List.filter
            (fun c => word_char unicode_isalnum c || space_char unicode_isspace c)
            text) st.
Proof.
  pose proof (strip_filter text) as Hs.
  split; [done|]. split.
  - intros c. rewrite Hs, List.filter_In, orb_true_iff. done.
  - rewrite <- Hs. apply preprocess_cut.
Qed.



(** Running [preprocess_text] keeps the dictionary. *)
Lemma preprocess_dictionary (D : Type) (dictionary : jieba_state -> D)
    (text : pystr) (st : jieba_state) :
  dictionary_kept jieba_cut dictionary ->
  dictionary (preprocess text st).2 = dictionary st.
Proof. intros [Hkeep _]. rewrite preprocess_cut. apply Hkeep. Qed.

Lemma after_runs_dictionary (D : Type) (dictionary : jieba_state -> D)
    (texts : list pystr) (st : jieba_state) :
  dictionary_kept jieba_cut dictionary ->
  dictionary (after_runs unicode_isalnum unicode_isspace jieba_cut texts st)
  = dictionary st.
Proof.
  intros Hkept. revert st.
  induction texts as [|text texts IH]; intros st; [done|].
  cbn [after_runs foldl]. unfold after_runs in IH. rewrite IH.
  by apply preprocess_dictionary.
Qed.

(** The tokens of a text are the same in two states with the same
    dictionary. *)
Lemma preprocess_same_dictionary (D : Type) (dictionary : jieba_state -> D)
    (text : pystr) (st st' : jieba_state) :
  dictionary_kept jieba_cut dictionary ->
  dictionary st = dictionary st' ->
  (preprocess text st).1 = (preprocess text st').1.
Proof. intros [_ Htok] Hd. rewrite !preprocess_cut. by apply Htok. Qed.

(** The score of two texts is the same in two states with the same
    dictionary, whatever the order in which the vocabulary is iterated. *)
Lemma similarity_same_dictionary (D : Type) (dictionary : jieba_state -> D)
    (original copied : pystr) (st st' : jieba_state) (words : list pystr) :
  dictionary_kept jieba_cut dictionary ->
  dictionary st = dictionary st' ->
  words ≡ₚ elements (all_words (Counter (preprocess original st').1)
                       (Counter (preprocess copied
                                   (preprocess original st').2).1)) ->
  cosine_over words (Counter (preprocess original st').1)
    (Counter (preprocess copied (preprocess original st').2).1)
  = (similarity original copied st).1.
Proof.
  intros Hkept Hd Hp.
  rewrite (cosine_over_Permutation _ _ _ _ Hp), similarity_unfold. cbn [fst].
  fold (calculate_cosine_similarity
          (Counter (preprocess original st').1)
          (Counter (preprocess copied (preprocess original st').2).1)).
  rewrite (preprocess_same_dictionary D dictionary original st' st Hkept)
    by done.
  rewrite (preprocess_same_dictionary D dictionary copied
             (preprocess original st').2 (preprocess original st).2 Hkept).
  - done.
  - by rewrite !(preprocess_dictionary D dictionary) by done.
Qed.

(** C9. Determinism. The tokenizer keeps a state between calls (the lazy
    load, the caches) and Python iterates the vocabulary set in an order
    that changes from run to run. With a tokenizer whose calls keep its
    dictionary: whatever texts were preprocessed before, [preprocess_text]
    gives the same tokens for a text; whatever was preprocessed before and
    in whatever order the vocabulary is iterated, the comparison of two
    documents gives the same score, the sums being sums of integers; and
    running the comparison again right after gives the same score. *)
Theorem deterministic (D : Type) (dictionary : jieba_state -> D) :
  dictionary_kept jieba_cut dictionary ->
  (forall (text : pystr) (earlier : list pystr) (st : jieba_state),
     (preprocess_text unicode_isalnum unicode_isspace jieba_cut text
        (after_runs unicode_isalnum unicode_isspace jieba_cut earlier st)).1
     = (preprocess_text unicode_isalnum unicode_isspace jieba_cut text st).1)
  /\ (forall (original copied : pystr) (earlier : list pystr)
         (st : jieba_state) (words : list pystr),
        let st' :=
          after_runs unicode_isalnum unicode_isspace jieba_cut earlier st in
        let original_words :=
          (preprocess_text unicode_isalnum unicode_isspace jieba_cut
             original st').1 in
        let copied_words :=
          (preprocess_text unicode_isalnum unicode_isspace jieba_cut copied
             (preprocess_text unicode_isalnum unicode_isspace jieba_cut
                original st').2).1 in
        words ≡ₚ elements (all_words (Counter original_words)
                             (Counter copied_words)) ->
        cosine_over words (Counter original_words) (Counter copied_words)
        = (calculate_similarity unicode_isalnum unicode_isspace jieba_cut
             original copied st).1)
  /\ (forall (original copied : pystr) (st : jieba_state),
        let first :=
          calculate_similarity unicode_isalnum unicode_isspace jieba_cut
            original copied st in
        (calculate_similarity unicode_isalnum unicode_isspace jieba_cut
           original copied first.2).1 = first.1).
Proof.
  intros Hkept. split; [|split].
  - intros text earlier st.
    apply (preprocess_same_dictionary D dictionary); [done|].
    by apply after_runs_dictionary.
  - intros original copied earlier st words st' ow cw Hp.
    apply (similarity_same_dictionary D dictionary); [done| |done].
    symmetry. by apply after_runs_dictionary.
  - intros original copied st first. subst first.
    assert (Hd : dictionary (similarity original copied st).2 = dictionary st).
    { rewrite similarity_unfold. cbn [snd].
      by rewrite !(preprocess_dictionary D dictionary). }
    set (again := (similarity original copied st).2) in *.
    rewrite (similarity_unfold original copied again).
    rewrite (similarity_unfold original copied st). cbn [fst].
    rewrite (preprocess_same_dictionary D dictionary original again st Hkept Hd).
    rewrite (preprocess_same_dictionary D dictionary copied
               (preprocess original again).2 (preprocess original st).2 Hkept);
      [done|].
    by rewrite !(preprocess_dictionary D dictionary).
Qed.

(** C10. The two mappings that [calculate_similarity] passes to
    [calculate_cosine_similarity] are the [Counter]s of the two token lists;
    each maps a key to the number of its occurrences in the list, which is
    strictly positive. *)
Theorem counts_positive (original copied : pystr) (st : jieba_state) :
  let original_words :=
    (preprocess_text unicode_isalnum unicode_isspace jieba_cut original st).1 in
  let st1 :=
    (preprocess_text unicode_isalnum unicode_isspace jieba_cut original st).2 in
  let copied_words :=
    (preprocess_text unicode_isalnum unicode_isspace jieba_cut copied st1).1 in
  (calculate_similarity unicode_isalnum unicode_isspace jieba_cut
     original copied st).1
  = calculate_cosine_similarity (Counter original_words) (Counter copied_words)
  /\ map_Forall (fun w c => 0 < c /\ c = occurrences w original_words)
       (Counter original_words)
  /\ map_Forall (fun w c => 0 < c /\ c = occurrences w copied_words)
       (Counter copied_words).
Proof.
  intros ow st1 cw.
  assert (Hcount : forall ws : list pystr,
    map_Forall (fun w c => 0 < c /\ c = occurrences w ws) (Counter ws)).
  { intros ws w c Hw. split; [exact (Counter_positive ws w c Hw)|].
    rewrite <- (Counter_get ws w). symmetry. by apply get_lookup. }
  split; [|split; apply Hcount].
  subst ow st1 cw. by rewrite similarity_unfold.
Qed.

(** C2. If either computed magnitude is zero the engine returns 0.0, and it
    never raises [ZeroDivisionError]; on frequency vectors both magnitudes
    are computed and the engine returns a float. [calculate_similarity]
    raises nothing on token lists of at most [sys.maxsize] tokens, and
    returns 0.0 as soon as one of the two token lists is empty, as for empty
    strings. *)
Theorem zero_magnitude_policy :
  (forall (K : Type) `(Countable K) (vec1 vec2 : gmap K Z),
     (forall m1 m2 : PyFloat.t,
        norm vec1 = Ok m1 -> norm vec2 = Ok m2 ->
        PyFloat.eqb m1 PyFloat.zero || PyFloat.eqb m2 PyFloat.zero = true ->
        calculate_cosine_similarity vec1 vec2 = Ok PyFloat.zero)
     /\ calculate_cosine_similarity vec1 vec2 <> Raise ZeroDivisionError
     /\ (frequency_vector vec1 -> frequency_vector vec2 ->
         (exists m1 m2, norm vec1 = Ok m1 /\ norm vec2 = Ok m2)
         /\ exists f, calculate_cosine_similarity vec1 vec2 = Ok f))
  /\ (forall original copied st,
        let original_words :=
          (preprocess_text unicode_isalnum unicode_isspace jieba_cut
             original st).1 in
        let st1 :=
          (preprocess_text unicode_isalnum unicode_isspace jieba_cut
             original st).2 in
        let copied_words :=
          (preprocess_text unicode_isalnum unicode_isspace jieba_cut
             copied st1).1 in
        Z.of_nat (length original_words) <= sys_maxsize ->
        Z.of_nat (length copied_words) <= sys_maxsize ->
        exists f : PyFloat.t,
          (calculate_similarity unicode_isalnum unicode_isspace jieba_cut
             original copied st).1 = Ok f
          /\ (original_words = [] \/ copied_words = [] -> f = PyFloat.zero))
  /\ (no_token_of_empty jieba_cut ->
      forall st,
        (calculate_similarity unicode_isalnum unicode_isspace jieba_cut
           [] [] st).1 = Ok PyFloat.zero).
Proof.
  split; [|split].
  - intros K ? ? vec1 vec2. split; [|split].
    + intros m1 m2 Hn1 Hn2 Hz.
      rewrite calculate_cosine_similarity_unfold, Hn1, Hn2. cbn. by rewrite Hz.
    + intros Hr. by pose proof (cosine_raise vec1 vec2 _ Hr).
    + intros Hf1 Hf2. split; [|by apply cosine_fv_ok].
      destruct (norm_fv vec1 Hf1) as [[_ Hn1] | [_ (m1 & Hn1 & _)]];
        destruct (norm_fv vec2 Hf2) as [[_ Hn2] | [_ (m2 & Hn2 & _)]];
        eauto.
  - intros original copied st ow st1 cw How Hcw.
    rewrite similarity_unfold. cbn [fst]. fold ow st1 cw.
    pose proof (Counter_frequency_vector ow How) as Hfo.
    pose proof (Counter_frequency_vector cw Hcw) as Hfc.
    destruct (cosine_fv_ok _ _ Hfo Hfc) as [f Hf].
    exists f. split; [done|].
    intros [Hnil | Hnil]; rewrite Hnil in Hf;
      change (Counter []) with (∅ : gmap pystr Z) in Hf.
    + rewrite (cosine_empty_l _ Hfc) in Hf. congruence.
    + rewrite (cosine_empty_r _ Hfo) in Hf. congruence.
  - intros Hempty st.
    rewrite similarity_unfold. cbn [fst].
    rewrite !preprocess_cut. cbn [re_sub_class].
    rewrite !Hempty. done.
Qed.

End TokenizerProperties.

(* ===================================================================== *)
(** ** The tokenizer properties on the stand-in segmenter *)


Lemma char_cut_fixed_dictionary : fixed_dictionary char_cut.
Proof. intros text st st'. reflexivity. Defined.

Lemma mode_cut_dictionary_kept : dictionary_kept mode_cut fst.
Proof.
  split.
  - by intros text [b n].
  - intros text [b n] [b' n'] Hd. simpl in Hd. by subst.
Defined.


Lemma deterministic_witness :
  let st' :=
    after_runs demo_isalnum demo_isspace mode_cut [farewell] (false, 0%nat) in
  let original_words :=
    (preprocess_text demo_isalnum demo_isspace mode_cut greeting st').1 in
  let copied_words :=
    (preprocess_text demo_isalnum demo_isspace mode_cut greeting_plain
       (preprocess_text demo_isalnum demo_isspace mode_cut greeting st').2).1 in
  cosine_over
    (reverse (elements (all_words (Counter original_words)
                          (Counter copied_words))))
    (Counter original_words) (Counter copied_words)
  = (calculate_similarity demo_isalnum demo_isspace mode_cut
       greeting greeting_plain (false, 0%nat)).1.
Proof.
  apply (proj1 (proj2 (deterministic demo_isalnum demo_isspace (bool * nat)
                         mode_cut bool fst mode_cut_dictionary_kept))
           greeting greeting_plain [farewell] (false, 0%nat)).
  apply reverse_Permutation.
Defined.

Lemma zero_magnitude_policy_witness :
  exists f : PyFloat.t,
    (calculate_similarity demo_isalnum demo_isspace char_cut
       greeting [33%N] 0%nat).1 = Ok f
    /\ ((preprocess_text demo_isalnum demo_isspace char_cut greeting 0%nat).1 = []
        \/ (preprocess_text demo_isalnum demo_isspace char_cut [33%N] 1%nat).1 = []
        -> f = PyFloat.zero).
Proof.
  apply (proj1 (proj2 (zero_magnitude_policy demo_isalnum demo_isspace nat
                         char_cut)) greeting [33%N] 0%nat); by vm_compute.
Defined.

Lemma self_similarity_witness :
  exists f, calculate_cosine_similarity tomorrow tomorrow = Ok f
            /\ within f 1 1 49 = true.
Proof.
  apply self_similarity.
  - apply insert_non_empty.
  - unfold tomorrow. repeat (apply map_Forall_insert_2; [lia|]).
    apply map_Forall_empty.
  - by vm_compute.
Defined.

(** Beyond frequency vectors: a count of [2^512] has a square that no
    double holds, and [math.sqrt] raises [OverflowError]. *)
Lemma overflow_beyond_frequency_vectors :
  calculate_cosine_similarity
    (<[ "a" := 2 ^ 512 ]> (∅ : gmap string Z)) (<[ "b" := 1 ]> ∅)
  = Raise OverflowError.
Proof. by vm_compute. Qed.

(* ===================================================================== *)
(** ** The range of the score *)

Module ScoreBound.
Import Binary64 FloatAccuracy.
Local Open Scope R_scope.

(** The error analysis of [float(dot) / (sqrt(float(sa)) * sqrt(float(sb)))]
    on real values: with [dot^2 <= sa * sb] the quotient is at most
    [1 + 8 * eps]. *)
Lemma quotient_at_most_one
    (vr vp vd m1 m2 vsa vsb SA SB D : R) :
  0 < vr -> 0 < m1 -> 0 < m2 -> 0 < SA -> 0 < SB -> 0 < D ->
  vr * vp <= (1 + eps) * vd ->
  vd <= (1 + eps) * D ->
  (1 - eps) * (m1 * m2) <= vp ->
  vsa <= (1 + eps) * (1 + eps) * (m1 * m1) ->
  vsb <= (1 + eps) * (1 + eps) * (m2 * m2) ->
  (1 - eps) * SA <= vsa ->
  (1 - eps) * SB <= vsb ->
  D * D <= SA * SB ->
  vr <= 1 + 8 * eps.
Proof.
  intros Hvr Hm1 Hm2 HSA HSB HD H1 H2 H3 H4a H4b H5a H5b H6.
  unfold eps in *.
  set (u := 1 + / 4503599627370496) in *.
  set (l := 1 - / 4503599627370496) in *.
  assert (Hu : 1 < u) by (unfold u; lra).
  assert (Hl : 0 < l < 1) by (unfold l; lra).
  set (P := m1 * m2) in *.
  assert (HP : 0 < P) by (unfold P; nra).
  assert (A1 : vr * (l * P) <= u * (u * D)).
  { etrans; [apply Rmult_le_compat_l; [lra | exact H3]|].
    etrans; [exact H1|]. apply Rmult_le_compat_l; lra. }
  assert (A2 : (vr * (l * P)) * (vr * (l * P)) <= (u * (u * D)) * (u * (u * D))).
  { assert (0 < l * P) by (apply Rmult_lt_0_compat; lra).
    assert (0 < vr * (l * P)) by (apply Rmult_lt_0_compat; lra).
    apply Rmult_le_compat; lra. }
  assert (A3 : (l * SA) * (l * SB) <= (u * u * (m1 * m1)) * (u * u * (m2 * m2))).
  { assert (0 <= l * SA) by (apply Rmult_le_pos; lra).
    assert (0 <= l * SB) by (apply Rmult_le_pos; lra).
    apply Rmult_le_compat; lra. }
  assert (A4 : (vr * vr * (l * l * l * l)) * (SA * SB)
               <= (u * u * u * u * u * u * u * u) * (SA * SB)).
  { assert (B1 : (vr * vr * (l * l)) * ((l * SA) * (l * SB))
                 <= (vr * vr * (l * l)) * ((u * u * (m1 * m1)) * (u * u * (m2 * m2)))).
    { apply Rmult_le_compat_l; [nra | exact A3]. }
    assert (B2 : (u * u * u * u) * ((vr * (l * P)) * (vr * (l * P)))
                 <= (u * u * u * u) * ((u * (u * D)) * (u * (u * D)))).
    { apply Rmult_le_compat_l; [nra | exact A2]. }
    assert (B3 : (u * u * u * u * u * u * u * u) * (D * D)
                 <= (u * u * u * u * u * u * u * u) * (SA * SB)).
    { apply Rmult_le_compat_l; [nra | exact H6]. }
    unfold P in *. nra. }
  assert (HSS : 0 < SA * SB) by nra.
  apply Rmult_le_reg_r in A4; [|done].
  destruct (Rle_or_lt vr (1 + 8 * / 4503599627370496)) as [Hle | Hgt]; [done|].
  exfalso.
  assert (C1 : (1 + 8 * / 4503599627370496) * (1 + 8 * / 4503599627370496)
               < vr * vr) by (apply Rmult_le_0_lt_compat; lra).
  assert (C2 : u * u * u * u * u * u * u * u
               <= (1 + 8 * / 4503599627370496) * (1 + 8 * / 4503599627370496)
                  * (l * l * l * l)) by (unfold u, l; lra).
  assert (C3 : 0 < l * l * l * l) by (repeat apply Rmult_lt_0_compat; lra).
  assert (C4 : (1 + 8 * / 4503599627370496) * (1 + 8 * / 4503599627370496)
               * (l * l * l * l) < vr * vr * (l * l * l * l)).
  { apply Rmult_lt_compat_r; lra. }
  lra.
Qed.

End ScoreBound.

(* ===================================================================== *)
(** ** More on the similarity engine *)

Section EngineExtras.
Context {K : Type} `{Countable K}.
Implicit Types a b : gmap K Z.

(** Cauchy-Schwarz on integer sums. *)
Lemma py_sum_cauchy_schwarz {A : Type} (f g : A -> Z) (l : list A) :
  py_sum ((fun w => f w * g w) <$> l) * py_sum ((fun w => f w * g w) <$> l)
  <= py_sum ((fun w => f w * f w) <$> l) * py_sum ((fun w => g w * g w) <$> l).
Proof.
  induction l as [|x l IH]; [done|].
  rewrite !fmap_cons, !py_sum_cons.
  set (S := py_sum ((fun w => f w * g w) <$> l)) in *.
  set (A' := py_sum ((fun w => f w * f w) <$> l)) in *.
  set (B' := py_sum ((fun w => g w * g w) <$> l)) in *.
  assert (HA : 0 <= A').
  { apply py_sum_nonneg, Forall_fmap, Forall_forall. intros w _. simpl. nia. }
  assert (HB : 0 <= B').
  { apply py_sum_nonneg, Forall_fmap, Forall_forall. intros w _. simpl. nia. }
  set (u := f x) in *. set (v := g x) in *.
  clearbody S A' B' u v.
  assert (Huu : 0 <= u * u) by apply Z.square_nonneg.
  assert (Hvv : 0 <= v * v) by apply Z.square_nonneg.
  assert (Hcross : 2 * (u * v * S) <= u * u * B' + v * v * A').
  { assert (Hsq : (2 * (u * v * S)) * (2 * (u * v * S))
                  <= (u * u * B' + v * v * A') * (u * u * B' + v * v * A')).
    { pose proof (Z.square_nonneg (u * u * B' - v * v * A')) as H1.
      assert (H2 : (u * v) * (u * v) * (S * S) <= (u * v) * (u * v) * (A' * B')).
      { apply Z.mul_le_mono_nonneg_l; [apply Z.square_nonneg | done]. }
      replace ((2 * (u * v * S)) * (2 * (u * v * S)))
        with (4 * ((u * v) * (u * v) * (S * S))) by ring.
      replace ((u * u * B' + v * v * A') * (u * u * B' + v * v * A'))
        with ((u * u * B' - v * v * A') * (u * u * B' - v * v * A')
              + 4 * ((u * v) * (u * v) * (A' * B'))) by ring.
      lia. }
    assert (H0 : 0 <= u * u * B' + v * v * A').
    { apply Z.add_nonneg_nonneg; apply Z.mul_nonneg_nonneg; done. }
    apply Z.square_le_simpl_nonneg; done. }
  replace ((u * v + S) * (u * v + S))
    with (u * v * (u * v) + 2 * (u * v * S) + S * S) by ring.
  replace ((u * u + A') * (v * v + B'))
    with (u * v * (u * v) + (u * u * B' + v * v * A') + A' * B') by ring.
  lia.
Qed.

Lemma dot_cauchy_schwarz a b :
  dot a b * dot a b <= sum_squares a * sum_squares b.
Proof.
  rewrite dot_alt.
  etrans; [apply py_sum_cauchy_schwarz|].
  rewrite (sum_over_union (fun c => c * c) a (dom b)) by done.
  rewrite (union_comm_L (dom a) (dom b)).
  rewrite (sum_over_union (fun c => c * c) b (dom a)) by done.
  by rewrite <- !sum_squares_alt.
Qed.

(** On frequency vectors the engine returns 0.0 when the dot product is 0,
    and otherwise a positive double of at most [1 + 8 * eps]. *)
Lemma cosine_fv_cases a b :
  frequency_vector a -> frequency_vector b ->
  (dot a b = 0 /\ calculate_cosine_similarity a b = Ok PyFloat.zero) \/
  (0 < dot a b /\ exists m e,
     calculate_cosine_similarity a b = Ok (S754_finite false m e) /\
     (Binary64.B2R (S754_finite false m e) <= 1 + 8 * Binary64.eps)%R).
Proof.
  intros Ha Hb.
  pose proof (fv_dot a b Ha Hb) as [Hd0 Hd1].
  pose proof (fv_sum_squares a Ha) as HSa.
  pose proof (fv_sum_squares b Hb) as HSb.
  pose proof (dot_cauchy_schwarz a b) as Hcs.
  assert (Hmax : sys_maxsize * sys_maxsize + sys_maxsize * sys_maxsize < 2 ^ 127)
    by (by vm_compute).
  assert (Hmax0 : 0 <= sys_maxsize * sys_maxsize) by (by vm_compute).
  destruct (Z.eq_dec (dot a b) 0) as [Hz | Hnz].
  - left. split; [done|].
    rewrite calculate_cosine_similarity_unfold, Hz.
    destruct (norm_fv a Ha) as [[_ ->] | [_ (m1 & -> & Hm1)]]; cbn.
    { destruct (norm_fv b Hb) as [[_ ->] | [_ (m2 & -> & Hm2)]]; done. }
    destruct (norm_fv b Hb) as [[_ ->] | [_ (m2 & -> & Hm2)]]; cbn.
    { by rewrite orb_true_r. }
    rewrite !FloatFacts.ge_one_nonzero by done. cbn.
    apply FloatFacts.div_zero_positive, FloatFacts.mul_ge_one; done.
  - right. assert (HD : 0 < dot a b) by lia. split; [done|].
    assert (HSA : 0 < sum_squares a) by nia.
    assert (HSB : 0 < sum_squares b) by nia.
    destruct (FloatAccuracy.of_int_accurate (sum_squares a) ltac:(lia))
      as (msa & esa & Hofa & Hdsa & Hesa & Hacca).
    destruct (FloatAccuracy.of_int_accurate (sum_squares b) ltac:(lia))
      as (msb & esb & Hofb & Hdsb & Hesb & Haccb).
    destruct (FloatAccuracy.of_int_accurate (dot a b) ltac:(lia))
      as (md & ed & Hofd & Hdd & Hed & Haccd).
    assert (Hga : Binary64.ge_one (S754_finite false msa esa))
      by (split; [done | Binary64.b64; lia]).
    assert (Hgb : Binary64.ge_one (S754_finite false msb esb))
      by (split; [done | Binary64.b64; lia]).
    destruct (FloatAccuracy.sqrt_accurate msa esa Hga)
      as (p1 & e1 & Hsq1 & Hd1' & He1 & Hs1).
    destruct (FloatAccuracy.sqrt_accurate msb esb Hgb)
      as (p2 & e2 & Hsq2 & Hd2' & He2 & Hs2).
    Binary64.halves esa. Binary64.halves esb.
    assert (Hg1 : Binary64.ge_one (S754_finite false p1 e1))
      by (split; [done | Binary64.b64; lia]).
    assert (Hg2 : Binary64.ge_one (S754_finite false p2 e2))
      by (split; [done | Binary64.b64; lia]).
    destruct (FloatAccuracy.mul_accurate p1 p2 e1 e2 Hg1 Hg2 ltac:(lia))
      as (pp & ep & Hmul & Hdp & Hep & Hpacc).
    destruct (FloatAccuracy.div_accurate md pp ed ep Hdd Hdp ltac:(lia))
      as (pr & er & Hdiv & Hdr & Her & Hracc).
    assert (Hn1 : norm a = Ok (S754_finite false p1 e1)).
    { unfold norm, math_sqrt. rewrite Hofa.
      change (PyFloat.sqrt (S754_finite false msa esa)
              = Ok (S754_finite false p1 e1)).
      cbn [PyFloat.sqrt]. by rewrite Hsq1. }
    assert (Hn2 : norm b = Ok (S754_finite false p2 e2)).
    { unfold norm, math_sqrt. rewrite Hofb.
      change (PyFloat.sqrt (S754_finite false msb esb)
              = Ok (S754_finite false p2 e2)).
      cbn [PyFloat.sqrt]. by rewrite Hsq2. }
    exists pr, er. split.
    + rewrite (cosine_nonzero a b _ _ Hn1 Hn2 eq_refl eq_refl), Hofd.
      change (Ok (SF64div (S754_finite false md ed)
                    (SF64mul (S754_finite false p1 e1) (S754_finite false p2 e2)))
              = Ok (S754_finite false pr er)).
      by rewrite Hmul, Hdiv.
    + cbv zeta in Hs1, Hs2, Hpacc, Hracc.
      apply (ScoreBound.quotient_at_most_one
               (Binary64.B2R (S754_finite false pr er))
               (Binary64.B2R (S754_finite false pp ep))
               (Binary64.B2R (S754_finite false md ed))
               (Binary64.B2R (S754_finite false p1 e1))
               (Binary64.B2R (S754_finite false p2 e2))
               (Binary64.B2R (S754_finite false msa esa))
               (Binary64.B2R (S754_finite false msb esb))
               (IZR (sum_squares a)) (IZR (sum_squares b)) (IZR (dot a b)));
        try apply FloatAccuracy.B2R_pos; try (apply IZR_lt; lia);
        try tauto.
      rewrite <- !mult_IZR. by apply IZR_le.
Qed.

Lemma at_most_of_real (m : positive) (e n d : Z) :
  0 < d ->
  (Binary64.B2R (S754_finite false m e) * IZR d <= IZR n)%R ->
  at_most (S754_finite false m e) n d = true.
Proof.
  intros Hd Hle. unfold at_most, PyFloat.to_frac. cbn [Binary64.B2R] in Hle.
  rewrite Rmult_1_l in Hle.
  destruct (Z.leb_spec 0 e) as [He | He]; apply Z.leb_le.
  - apply le_IZR. rewrite !mult_IZR, FloatAccuracy.IZR_pow2 by done.
    change (IZR 1) with 1%R. lra.
  - set (q := 2 ^ (- e)).
    assert (Hq : (0 < IZR q)%R).
    { unfold q. rewrite FloatAccuracy.IZR_pow2 by lia.
      apply FloatAccuracy.pow2_pos. }
    assert (Hv : (powerRZ 2 e = / IZR q)%R).
    { unfold q. rewrite FloatAccuracy.IZR_pow2 by lia.
      rewrite powerRZ_neg'. replace (- - e) with e by lia.
      by rewrite Rinv_inv. }
    rewrite Hv in Hle.
    apply le_IZR. rewrite !mult_IZR.
    apply (Rmult_le_compat_r (IZR q)) in Hle; [|lra].
    replace (IZR (Z.pos m) * / IZR q * IZR d * IZR q)%R
      with (IZR (Z.pos m) * IZR d * (IZR q * / IZR q))%R in Hle by ring.
    rewrite Rinv_r, Rmult_1_r in Hle by lra. done.
Qed.

Lemma py_sum_positive (l : list Z) :
  Forall (fun x => 0 <= x) l -> (0 < py_sum l <-> Exists (fun x => 0 < x) l).
Proof.
  induction 1 as [|x l Hx Hl IH].
  - rewrite py_sum_nil, Exists_nil. lia.
  - rewrite py_sum_cons, Exists_cons, <- IH.
    pose proof (py_sum_nonneg l Hl). lia.
Qed.

Lemma dot_positive a b :
  frequency_vector a -> frequency_vector b ->
  (0 < dot a b <-> exists w, 0 < get a w /\ 0 < get b w).
Proof.
  intros [Ha _] [Hb _]. rewrite dot_alt, py_sum_positive.
  - rewrite Exists_exists. split.
    + intros (x & Hx & Hpos). apply list_elem_of_fmap in Hx as (w & -> & _).
      exists w. pose proof (get_nonneg a w Ha). pose proof (get_nonneg b w Hb).
      nia.
    + intros (w & Hwa & Hwb). exists (get a w * get b w). split; [|nia].
      apply list_elem_of_fmap. exists w. split; [done|].
      apply elem_of_elements, elem_of_union. left.
      apply elem_of_dom. unfold get in Hwa.
      destruct (a !! w); [by eexists | simpl in Hwa; lia].
  - apply Forall_fmap, Forall_forall. intros w _. simpl.
    pose proof (get_nonneg a w Ha). pose proof (get_nonneg b w Hb). nia.
Qed.

(** X1. The result does not depend on the order in which the set
    [all_words] is iterated: over any enumeration of the union vocabulary
    the body of the function computes the same outcome. *)
Theorem iteration_order_irrelevant (words : list K) a b :
  words ≡ₚ elements (all_words a b) ->
  cosine_over words a b = calculate_cosine_similarity a b.
Proof. intros Hp. by apply cosine_over_Permutation. Qed.

(** X2. Whatever the integer counts, the engine either returns a float or
    raises [OverflowError]: it raises neither [ValueError] (a square root of
    a negative number) nor [ZeroDivisionError]. *)
Theorem only_overflow_error a b :
  (exists f, calculate_cosine_similarity a b = Ok f)
  \/ calculate_cosine_similarity a b = Raise OverflowError.
Proof.
  destruct (calculate_cosine_similarity a b) as [f|e] eqn:Hc; [by eauto|].
  right. by rewrite (cosine_raise a b e Hc).
Qed.

(** X3. On frequency vectors the score is a finite double that is not
    negative and is at most [1 + 2^-49]. *)
Theorem score_range a b :
  frequency_vector a -> frequency_vector b ->
  exists f, calculate_cosine_similarity a b = Ok f
    /\ (f = PyFloat.zero \/ exists m e, f = S754_finite false m e)
    /\ at_most f (2 ^ 49 + 1) (2 ^ 49) = true.
Proof.
  intros Ha Hb.
  destruct (cosine_fv_cases a b Ha Hb) as [[_ ->] | [_ (m & e & -> & Hle)]].
  - exists PyFloat.zero. split; [done|]. split; [by left | done].
  - exists (S754_finite false m e). split; [done|]. split; [by eauto|].
    apply at_most_of_real; [done|].
    change (IZR (2 ^ 49)) with 562949953421312%R.
    change (IZR (2 ^ 49 + 1)) with 562949953421313%R.
    unfold Binary64.eps in Hle. lra.
Qed.

(** X4. On frequency vectors the score is a positive double exactly when
    the two vectors share a token that both count at least once; otherwise
    it is 0.0. *)
Theorem positive_iff_shared_token a b :
  frequency_vector a -> frequency_vector b ->
  ((exists w, 0 < get a w /\ 0 < get b w)
   <-> exists m e, calculate_cosine_similarity a b = Ok (S754_finite false m e))
  /\ (~ (exists w, 0 < get a w /\ 0 < get b w)
      <-> calculate_cosine_similarity a b = Ok PyFloat.zero).
Proof.
  intros Ha Hb. rewrite <- (dot_positive a b Ha Hb).
  destruct (cosine_fv_cases a b Ha Hb) as [[Hz ->] | [Hp (m & e & -> & _)]].
  - split; split; try done; try lia. intros (m & e & [=]).
  - split; split; try done; try lia; eauto.
Qed.

End EngineExtras.

Lemma frequency_vector_canteen : frequency_vector canteen.
Proof.
  split; [|by vm_compute].
  unfold canteen. repeat (apply map_Forall_insert_2; [lia|]).
  apply map_Forall_empty.
Defined.

Lemma frequency_vector_dinner : frequency_vector dinner.
Proof.
  split; [|by vm_compute].
  unfold dinner. repeat (apply map_Forall_insert_2; [lia|]).
  apply map_Forall_empty.
Defined.

Lemma iteration_order_irrelevant_witness :
  cosine_over (reverse (elements (all_words canteen dinner))) canteen dinner
  = calculate_cosine_similarity canteen dinner.
Proof. apply iteration_order_irrelevant, reverse_Permutation. Defined.

Lemma score_range_witness :
  exists f, calculate_cosine_similarity canteen dinner = Ok f
    /\ (f = PyFloat.zero \/ exists m e, f = S754_finite false m e)
    /\ at_most f (2 ^ 49 + 1) (2 ^ 49) = true.
Proof.
  apply score_range.
  - exact frequency_vector_canteen.
  - exact frequency_vector_dinner.
Defined.

Lemma positive_iff_shared_token_witness :
  ((exists w, 0 < get canteen w /\ 0 < get dinner w)
   <-> exists m e,
         calculate_cosine_similarity canteen dinner = Ok (S754_finite false m e))
  /\ (~ (exists w, 0 < get canteen w /\ 0 < get dinner w)
      <-> calculate_cosine_similarity canteen dinner = Ok PyFloat.zero).
Proof.
  apply positive_iff_shared_token.
  - exact frequency_vector_canteen.
  - exact frequency_vector_dinner.
Defined.

(* ===================================================================== *)
(** ** Bags of words *)

Section BagOfWords.
Context {K : Type} `{Countable K}.
Implicit Types a b : gmap K Z.

Lemma occurrences_Permutation (w : K) (ws ws' : list K) :
  ws ≡ₚ ws' -> occurrences w ws = occurrences w ws'.
Proof. intros Hp. unfold occurrences. by rewrite Hp. Qed.

Lemma occurrences_positive (w : K) (ws : list K) :
  0 < occurrences w ws <-> w ∈ ws.
Proof.
  unfold occurrences. split.
  - intros Hpos.
    destruct (filter (fun x => x = w) ws) as [|x l] eqn:Hf;
      [simpl in Hpos; lia|].
    assert (Hx : x ∈ filter (fun x => x = w) ws) by (rewrite Hf; left).
    apply list_elem_of_filter in Hx as [-> Hx]. done.
  - intros Hin.
    assert (Hw : w ∈ filter (fun x => x = w) ws)
      by (by apply list_elem_of_filter).
    destruct (filter (fun x => x = w) ws); [by inversion Hw | simpl; lia].
Qed.

Lemma positive_maps_eq a b :
  map_Forall (fun _ c => 0 < c) a -> map_Forall (fun _ c => 0 < c) b ->
  (forall w, get a w = get b w) -> a = b.
Proof.
  intros Ha Hb Hg. apply map_eq. intros w. specialize (Hg w). unfold get in Hg.
  destruct (a !! w) as [c|] eqn:Hw, (b !! w) as [c'|] eqn:Hw'; simpl in Hg.
  - by subst.
  - specialize (Ha w c Hw). simpl in Ha. lia.
  - specialize (Hb w c' Hw'). simpl in Hb. lia.
  - done.
Qed.

Lemma Counter_Permutation (ws ws' : list K) :
  ws ≡ₚ ws' -> Counter ws = Counter ws'.
Proof.
  intros Hp. apply positive_maps_eq; try apply Counter_positive.
  intros w. rewrite !Counter_get. by apply occurrences_Permutation.
Qed.

Lemma Counter_empty_iff (ws : list K) : Counter ws = ∅ <-> ws = [].
Proof.
  split; [|by intros ->].
  intros He. destruct ws as [|w ws]; [done|].
  pose proof (Counter_get (w :: ws) w) as Hg.
  rewrite He in Hg. unfold get in Hg. rewrite lookup_empty in Hg. simpl in Hg.
  assert (0 < occurrences w (w :: ws)) by (apply occurrences_positive; left).
  lia.
Qed.

(** Swapping the arguments of the engine. *)
Lemma cosine_swap a b :
  calculate_cosine_similarity a b = calculate_cosine_similarity b a.
Proof.
  rewrite !calculate_cosine_similarity_unfold, (dot_comm b a).
  destruct (norm a) as [m1|e1] eqn:Hn1, (norm b) as [m2|e2] eqn:Hn2; cbn;
    try done.
  - by rewrite (orb_comm (PyFloat.eqb m2 _)), (FloatFacts.mul_comm m2 m1).
  - rewrite (FloatFacts.math_sqrt_raise _ _ (sum_squares_nonneg a) Hn1).
    by rewrite (FloatFacts.math_sqrt_raise _ _ (sum_squares_nonneg b) Hn2).
Qed.

(** The score of a non-empty token list against itself. *)
Lemma self_score (ws : list K) :
  ws <> [] -> Z.of_nat (length ws) <= sys_maxsize ->
  exists m e,
    calculate_cosine_similarity (Counter ws) (Counter ws)
      = Ok (S754_finite false m e)
    /\ within (S754_finite false m e) 1 1 49 = true.
Proof.
  intros Hne Hlen. set (a := Counter ws).
  assert (Hfv : frequency_vector a) by (by apply Counter_frequency_vector).
  assert (Ha : a <> ∅) by (intros He; by apply Counter_empty_iff in He).
  pose proof (sum_squares_positive a Ha (Counter_positive ws)) as HS.
  pose proof (fv_sum_squares a Hfv) as HS'.
  assert (Hmax : sys_maxsize * sys_maxsize < 2 ^ 127) by (by vm_compute).
  destruct (FloatFacts.of_int_small (sum_squares a) ltac:(lia))
    as (ms & es & Hof & Hds & Hes).
  destruct (FloatAccuracy.self_quotient ms es Hds Hes)
    as (m & pd & ed & Hsqrt & Hge & Hdiv & Hacc).
  assert (Hnorm : norm a = Ok m).
  { unfold norm, math_sqrt. rewrite Hof. exact Hsqrt. }
  pose proof (FloatFacts.ge_one_nonzero m Hge) as Hz.
  exists pd, ed. split.
  - rewrite (cosine_nonzero a a m m Hnorm Hnorm Hz Hz), dot_self, Hof. cbn.
    unfold PyFloat.div in Hdiv.
    destruct (PyFloat.eqb (PyFloat.mul m m) PyFloat.zero); [done|].
    exact Hdiv.
  - by apply within_one.
Qed.

(** The score of two token lists: a float in the range, 0.0 exactly when
    the lists have no token in common. *)
Lemma token_score (ws1 ws2 : list K) :
  Z.of_nat (length ws1) <= sys_maxsize ->
  Z.of_nat (length ws2) <= sys_maxsize ->
  ((forall w, w ∈ ws1 -> w ∉ ws2)
   /\ calculate_cosine_similarity (Counter ws1) (Counter ws2) = Ok PyFloat.zero)
  \/ ((exists w, w ∈ ws1 /\ w ∈ ws2)
      /\ exists m e,
           calculate_cosine_similarity (Counter ws1) (Counter ws2)
             = Ok (S754_finite false m e)
           /\ at_most (S754_finite false m e) (2 ^ 49 + 1) (2 ^ 49) = true).
Proof.
  intros H1 H2.
  pose proof (Counter_frequency_vector ws1 H1) as Hf1.
  pose proof (Counter_frequency_vector ws2 H2) as Hf2.
  pose proof (dot_positive _ _ Hf1 Hf2) as Hdot.
  destruct (cosine_fv_cases _ _ Hf1 Hf2) as [[Hz ->] | [Hp (m & e & -> & Hle)]].
  - left. split; [|done]. intros w Hw1 Hw2.
    assert (0 < dot (Counter ws1) (Counter ws2)); [|lia].
    apply Hdot. exists w. rewrite !Counter_get, !occurrences_positive. done.
  - right. split.
    + apply Hdot in Hp as (w & Hw1 & Hw2). exists w.
      by rewrite !Counter_get, !occurrences_positive in Hw1, Hw2.
    + exists m, e. split; [done|].
      apply at_most_of_real; [done|].
      change (IZR (2 ^ 49)) with 562949953421312%R.
      change (IZR (2 ^ 49 + 1)) with 562949953421313%R.
      unfold Binary64.eps in Hle. lra.
Qed.

(** X5. The score depends on each token list as a bag only: reordering the
    tokens of either document changes neither its frequency vector nor the
    outcome. *)
Theorem word_order_irrelevant (ws1 ws1' ws2 ws2' : list K) :
  ws1 ≡ₚ ws1' -> ws2 ≡ₚ ws2' ->
  Counter ws1 = Counter ws1' /\ Counter ws2 = Counter ws2'
  /\ calculate_cosine_similarity (Counter ws1) (Counter ws2)
     = calculate_cosine_similarity (Counter ws1') (Counter ws2').
Proof.
  intros Hp1 Hp2.
  rewrite (Counter_Permutation ws1 ws1' Hp1), (Counter_Permutation ws2 ws2' Hp2).
  done.
Qed.

End BagOfWords.

Lemma word_order_irrelevant_witness :
  Counter ["a"; "b"; "a"]%string = Counter ["b"; "a"; "a"]%string
  /\ Counter ["b"]%string = Counter ["b"]%string
  /\ calculate_cosine_similarity
       (Counter ["a"; "b"; "a"]%string) (Counter ["b"]%string)
     = calculate_cosine_similarity
         (Counter ["b"; "a"; "a"]%string) (Counter ["b"]%string).
Proof.
  apply word_order_irrelevant.
  - apply perm_swap.
  - reflexivity.
Defined.

(* ===================================================================== *)
(** ** The score of two texts *)

Section OrchestrationExtras.
Variable unicode_isalnum unicode_isspace : codepoint -> bool.
Variable jieba_state : Type.
Variable jieba_cut : pystr -> jieba_state -> list pystr * jieba_state.

Local Abbreviation keep :=
  (fun c : codepoint =>
     word_char unicode_isalnum c || space_char unicode_isspace c).
Local Abbreviation preprocess :=
  (preprocess_text unicode_isalnum unicode_isspace jieba_cut).
Local Abbreviation similarity :=
  (calculate_similarity unicode_isalnum unicode_isspace jieba_cut).

Lemma preprocess_filter (text : pystr) (st : jieba_state) :
  preprocess text st = jieba_cut (List.filter keep text) st.
Proof. by rewrite preprocess_cut, strip_filter. Qed.

(** With a fixed dictionary the score is that of the tokens of the two
    texts, whatever the states the tokenizer is run in. *)
Lemma similarity_fixed (original copied : pystr) (st st1 st2 : jieba_state) :
  fixed_dictionary jieba_cut ->
  (similarity original copied st).1
  = calculate_cosine_similarity
      (Counter (preprocess original st1).1) (Counter (preprocess copied st2).1).
Proof.
  intros Hf. rewrite similarity_unfold. cbn [fst]. rewrite !preprocess_filter.
  rewrite (Hf (List.filter keep original) st st1).
  rewrite (Hf (List.filter keep copied) (jieba_cut (List.filter keep original) st).2
             st2).
  done.
Qed.

(** X6. Punctuation does not count: two pairs of texts that agree once the
    characters that are neither word characters nor whitespace are dropped
    get the same score, and leave the tokenizer in the same state. *)
Theorem punctuation_insensitive (original original' copied copied' : pystr)
    (st : jieba_state) :
  List.filter keep original = List.filter keep original' ->
  List.filter keep copied = List.filter keep copied' ->
  similarity original copied st = similarity original' copied' st.
Proof.
  intros Ho Hc. rewrite !similarity_unfold, !preprocess_filter.
  by rewrite Ho, Hc.
Qed.

(** X7. With a fixed dictionary the score of two texts does not depend on
    which is the original and which the copy. *)
Theorem similarity_symmetric (original copied : pystr) (st : jieba_state) :
  fixed_dictionary jieba_cut ->
  (similarity original copied st).1 = (similarity copied original st).1.
Proof.
  intros Hf.
  rewrite (similarity_fixed original copied st st st Hf).
  rewrite (similarity_fixed copied original st st st Hf).
  apply cosine_swap.
Qed.

(** X8. On token lists of at most [sys.maxsize] tokens the score of two
    texts is a float that is at most [1 + 2^-49]; it is 0.0 exactly when no
    token of the original is a token of the copy, and a positive double
    exactly when they have a token in common. *)
Theorem similarity_range (original copied : pystr) (st : jieba_state) :
  let original_words := (preprocess original st).1 in
  let copied_words := (preprocess copied (preprocess original st).2).1 in
  Z.of_nat (length original_words) <= sys_maxsize ->
  Z.of_nat (length copied_words) <= sys_maxsize ->
  exists f : PyFloat.t,
    (similarity original copied st).1 = Ok f
    /\ at_most f (2 ^ 49 + 1) (2 ^ 49) = true
    /\ (f = PyFloat.zero
        <-> forall w, w ∈ original_words -> w ∉ copied_words)
    /\ ((exists m e, f = S754_finite false m e)
        <-> exists w, w ∈ original_words /\ w ∈ copied_words).
Proof.
  intros ow cw How Hcw. rewrite similarity_unfold. cbn [fst]. fold ow cw.
  destruct (token_score ow cw How Hcw)
    as [[Hno ->] | [Hsome (m & e & -> & Hle)]].
  - exists PyFloat.zero. repeat split; try done.
    + intros (m & e & [=]).
    + intros (w & Hw1 & Hw2). by destruct (Hno w Hw1).
  - exists (S754_finite false m e). repeat split; try done; eauto.
    intros Hno. destruct Hsome as (w & Hw1 & Hw2). by destruct (Hno w Hw1).
Qed.

(** X9. With a fixed dictionary, a text that has a token, and at most
    [sys.maxsize] of them, scores within [2^-49] of 1.0 against itself. *)
Theorem identical_documents (text : pystr) (st : jieba_state) :
  fixed_dictionary jieba_cut ->
  (preprocess text st).1 <> [] ->
  Z.of_nat (length (preprocess text st).1) <= sys_maxsize ->
  exists m e,
    (similarity text text st).1 = Ok (S754_finite false m e)
    /\ within (S754_finite false m e) 1 1 49 = true.
Proof.
  intros Hf Hne Hlen.
  rewrite (similarity_fixed text text st st st Hf).
  by apply self_score.
Qed.

End OrchestrationExtras.

Lemma punctuation_insensitive_witness :
  calculate_similarity demo_isalnum demo_isspace char_cut
    greeting greeting_plain 0%nat
  = calculate_similarity demo_isalnum demo_isspace char_cut
      greeting_plain greeting 0%nat.
Proof.
  apply punctuation_insensitive; reflexivity.
Defined.

Lemma similarity_symmetric_witness :
  (calculate_similarity demo_isalnum demo_isspace char_cut
     greeting farewell 0%nat).1
  = (calculate_similarity demo_isalnum demo_isspace char_cut
       farewell greeting 0%nat).1.
Proof.
  apply similarity_symmetric. exact char_cut_fixed_dictionary.
Defined.

Lemma similarity_range_witness :
  exists f : PyFloat.t,
    (calculate_similarity demo_isalnum demo_isspace char_cut
       greeting farewell 0%nat).1 = Ok f
    /\ at_most f (2 ^ 49 + 1) (2 ^ 49) = true
    /\ (f = PyFloat.zero
        <-> forall w,
              w ∈ (preprocess_text demo_isalnum demo_isspace char_cut
                     greeting 0%nat).1 ->
              w ∉ (preprocess_text demo_isalnum demo_isspace char_cut
                     farewell 1%nat).1)
    /\ ((exists m e, f = S754_finite false m e)
        <-> exists w,
              w ∈ (preprocess_text demo_isalnum demo_isspace char_cut
                     greeting 0%nat).1
              /\ w ∈ (preprocess_text demo_isalnum demo_isspace char_cut
                        farewell 1%nat).1).
Proof.
  apply (similarity_range demo_isalnum demo_isspace nat char_cut
           greeting farewell 0%nat); by vm_compute.
Defined.

Lemma identical_documents_witness :
  exists m e,
    (calculate_similarity demo_isalnum demo_isspace char_cut
       greeting greeting 0%nat).1 = Ok (S754_finite false m e)
    /\ within (S754_finite false m e) 1 1 49 = true.
Proof.
  apply identical_documents.
  - exact char_cut_fixed_dictionary.
  - by vm_compute.
  - by vm_compute.
Defined.

(* ===================================================================== *)
(** ** Reading the files *)

Section Strip.
Variable isspace : codepoint -> bool.

Local Abbreviation blank := (Forall (fun c => isspace c = true)).

Lemma lstrip_spec (text : pystr) :
  exists l, text = l ++ lstrip isspace text /\ blank l
            /\ forall c, head (lstrip isspace text) = Some c -> isspace c = false.
Proof.
  induction text as [|c text (l & Ht & Hl & Hh)].
  - exists []. repeat split; [constructor | done].
  - simpl. destruct (isspace c) eqn:Hc.
    + exists (c :: l). repeat split; [by rewrite Ht at 1 | by constructor | done].
    + exists []. repeat split; [constructor|]. by intros c' [= <-].
Qed.

Lemma lstrip_blank_app (l text : pystr) :
  blank l -> lstrip isspace (l ++ text) = lstrip isspace text.
Proof. induction 1 as [|c l Hc _ IH]; [done|]. simpl. by rewrite Hc. Qed.

Lemma lstrip_blank (text : pystr) : blank text -> lstrip isspace text = [].
Proof.
  intros Hb. rewrite <- (app_nil_r text). by rewrite lstrip_blank_app.
Qed.

Lemma lstrip_nil_blank (text : pystr) : lstrip isspace text = [] -> blank text.
Proof.
  induction text as [|c text IH]; [constructor|].
  simpl. destruct (isspace c) eqn:Hc; [|done].
  intros Ht. constructor; [done | by apply IH].
Qed.

Lemma lstrip_app (text r : pystr) :
  lstrip isspace text <> [] ->
  lstrip isspace (text ++ r) = lstrip isspace text ++ r.
Proof.
  induction text as [|c text IH]; [done|].
  simpl. destruct (isspace c); [exact IH | done].
Qed.

Lemma py_strip_spec (text : pystr) :
  exists l r, text = l ++ py_strip isspace text ++ r /\ blank l /\ blank r
    /\ (forall c, head (py_strip isspace text) = Some c -> isspace c = false)
    /\ (forall c, last (py_strip isspace text) = Some c -> isspace c = false).
Proof.
  destruct (lstrip_spec text) as (l & Ht & Hl & Hh).
  destruct (lstrip_spec (rev (lstrip isspace text))) as (r & Hr & Hbr & Hhr).
  assert (Hmid : lstrip isspace text = py_strip isspace text ++ rev r).
  { unfold py_strip. rewrite <- rev_app_distr, <- Hr. by rewrite rev_involutive. }
  exists l, (rev r). split; [by rewrite <- Hmid|]. split; [done|]. split.
  { by apply List.Forall_rev. }
  split.
  - intros c Hc. apply Hh. rewrite Hmid.
    destruct (py_strip isspace text); [done|]. exact Hc.
  - intros c Hc. apply Hhr. unfold py_strip in Hc.
    rewrite rev_alt in Hc.
    change (rev_append ?x []) with (reverse x) in Hc.
    rewrite last_reverse in Hc. exact Hc.
Qed.

Lemma py_strip_padding (l text r : pystr) :
  blank l -> blank r ->
  py_strip isspace (l ++ text ++ r) = py_strip isspace text.
Proof.
  intros Hl Hr. unfold py_strip. rewrite (lstrip_blank_app l _ Hl).
  assert (Hrr : blank (rev r)) by (by apply List.Forall_rev).
  destruct (lstrip isspace text) as [|c t] eqn:Ht.
  - apply lstrip_nil_blank in Ht.
    rewrite (lstrip_blank (text ++ r)); [done|]. by apply Forall_app.
  - rewrite lstrip_app by (by rewrite Ht). rewrite Ht, rev_app_distr.
    by rewrite (lstrip_blank_app _ _ Hrr).
Qed.

End Strip.

Section ReadFile.
Variable unicode_isspace : codepoint -> bool.

(** X10. When the file can be read, [read_file] returns its text with
    whitespace removed at both ends and nothing else: the text is the
    returned content between two runs of whitespace, and the content
    neither starts nor ends with a whitespace character. Nothing is
    printed. *)
Theorem read_file_strips (read_response : list event -> pystr -> pystr + pystr)
    (file_path : pystr) (trace : list event) (text : pystr) :
  read_response trace file_path = inl text ->
  exists content l r,
    read_file unicode_isspace read_response file_path trace
      = (Return content, trace ++ [OpenRead file_path])
    /\ text = l ++ content ++ r
    /\ Forall (fun c => unicode_isspace c = true) l
    /\ Forall (fun c => unicode_isspace c = true) r
    /\ (forall c, head content = Some c -> unicode_isspace c = false)
    /\ (forall c, last content = Some c -> unicode_isspace c = false).
Proof.
  intros Hr. unfold read_file. rewrite Hr.
  destruct (py_strip_spec unicode_isspace text) as (l & r & Ht & Hl & Hrr & Hh & Hla).
  exists (py_strip unicode_isspace text), l, r. done.
Qed.

(** X11. Whitespace around the text of a file does not matter: a file that
    holds the same text between two runs of whitespace is read as the same
    content. *)
Theorem read_file_ignores_padding
    (read_response read_response' : list event -> pystr -> pystr + pystr)
    (file_path : pystr) (trace : list event) (text l r : pystr) :
  Forall (fun c => unicode_isspace c = true) l ->
  Forall (fun c => unicode_isspace c = true) r ->
  read_response trace file_path = inl text ->
  read_response' trace file_path = inl (l ++ text ++ r) ->
  read_file unicode_isspace read_response' file_path trace
  = read_file unicode_isspace read_response file_path trace.
Proof.
  intros Hl Hr Ht Ht'. unfold read_file. rewrite Ht, Ht'.
  by rewrite py_strip_padding.
Qed.

End ReadFile.

Lemma read_file_strips_witness :
  exists content l r,
    read_file demo_isspace demo_read [97%N] []
      = (Return content, [] ++ [OpenRead [97%N]])
    /\ greeting_padded = l ++ content ++ r
    /\ Forall (fun c => demo_isspace c = true) l
    /\ Forall (fun c => demo_isspace c = true) r
    /\ (forall c, head content = Some c -> demo_isspace c = false)
    /\ (forall c, last content = Some c -> demo_isspace c = false).
Proof.
  apply read_file_strips. reflexivity.
Defined.

Lemma read_file_ignores_padding_witness :
  read_file demo_isspace (fun _ _ => inl greeting_padded) [97%N] []
  = read_file demo_isspace (fun _ _ => inl greeting) [97%N] [].
Proof.
  apply (read_file_ignores_padding demo_isspace
           (fun _ _ => inl greeting) (fun _ _ => inl greeting_padded)
           [97%N] [] greeting [32; 32]%N [10]%N).
  - repeat constructor.
  - repeat constructor.
  - reflexivity.
  - reflexivity.
Defined.

(* ===================================================================== *)
(** ** The text of the answer *)

Lemma round_half_even_eq (p q n : Z) :
  0 < q -> (2 * n - 1) * q < 2 * p < (2 * n + 1) * q ->
  round_half_even p q = n.
Proof.
  intros Hq [Hlo Hhi]. unfold round_half_even.
  pose proof (Z.div_mod p q ltac:(lia)) as Hp.
  pose proof (Z.mod_pos_bound p q Hq) as Hr.
  set (d := p / q) in *. set (r := p mod q) in *. clearbody d r.
  assert (Hd : d = n \/ d = n - 1) by nia.
  destruct Hd as [-> | ->].
  - destruct (Z.compare_spec (2 * r) q); [nia | done | nia].
  - destruct (Z.compare_spec (2 * r) q); [nia | nia | lia].
Qed.

Lemma round_half_even_bounds (p q n : Z) :
  0 <= p -> 0 < q -> 2 * p < (2 * n + 1) * q ->
  0 <= round_half_even p q <= n.
Proof.
  intros Hp0 Hq Hhi. unfold round_half_even.
  pose proof (Z.div_mod p q ltac:(lia)) as Hp.
  pose proof (Z.mod_pos_bound p q Hq) as Hr.
  assert (Hd0 : 0 <= p / q) by (apply Z.div_pos; lia).
  set (d := p / q) in *. set (r := p mod q) in *. clearbody d r.
  assert (Hd : d <= n) by nia.
  destruct (Z.compare_spec (2 * r) q) as [He | Hlt | Hgt].
  - assert (d < n) by nia. destruct (Z.even d); lia.
  - lia.
  - assert (d < n) by nia. lia.
Qed.

(** A score in the range is at most 100 hundredths. *)
Lemma hundredths_at_most (m : positive) (e : Z) :
  at_most (S754_finite false m e) (2 ^ 49 + 1) (2 ^ 49) = true ->
  0 <= hundredths (S754_finite false m e) <= 100.
Proof.
  unfold at_most, PyFloat.to_frac, hundredths.
  destruct (Z.leb_spec 0 e) as [He | He]; intros Hle; apply Z.leb_le in Hle.
  - pose proof (Z.pow_pos_nonneg 2 e ltac:(lia) He) as Hpow.
    assert (Z.pos m * 2 ^ e = 1) by nia. lia.
  - pose proof (Z.pow_pos_nonneg 2 (- e) ltac:(lia) ltac:(lia)) as Hq.
    set (q := 2 ^ (- e)) in *. clearbody q.
    apply round_half_even_bounds; [lia | done |].
    change (2 ^ 49) with 562949953421312 in Hle. lia.
Qed.

(** A score within [2^-49] of 1 is 100 hundredths. *)
Lemma hundredths_within (m : positive) (e : Z) :
  within (S754_finite false m e) 1 1 49 = true ->
  hundredths (S754_finite false m e) = 100.
Proof.
  unfold within, PyFloat.to_frac, hundredths.
  destruct (Z.leb_spec 0 e) as [He | He]; intros Hle; apply Z.leb_le in Hle.
  - pose proof (Z.pow_pos_nonneg 2 e ltac:(lia) He) as Hpow.
    change (2 ^ 49) with 562949953421312 in Hle.
    assert (Z.pos m * 2 ^ e = 1) by lia. lia.
  - pose proof (Z.pow_pos_nonneg 2 (- e) ltac:(lia) ltac:(lia)) as Hq.
    set (q := 2 ^ (- e)) in *. clearbody q.
    apply round_half_even_eq; [done|].
    change (2 ^ 49) with 562949953421312 in Hle. lia.
Qed.

Lemma round_half_even_near (p q : Z) :
  0 < q -> Z.abs (2 * p - 2 * round_half_even p q * q) <= q.
Proof.
  intros Hq. unfold round_half_even.
  pose proof (Z.div_mod p q ltac:(lia)) as Hp.
  pose proof (Z.mod_pos_bound p q Hq) as Hr.
  set (d := p / q) in *. set (r := p mod q) in *. clearbody d r. subst p.
  destruct (Z.compare_spec (2 * r) q) as [He | Hlt | Hgt];
    [destruct (Z.even d)|..]; nia.
Qed.

(** The hundredths of a float are a nearest two-decimal value of it. *)
Lemma hundredths_near (m : positive) (e : Z) :
  nearest_hundredth (S754_finite false m e) (hundredths (S754_finite false m e))
  = true.
Proof.
  unfold nearest_hundredth, PyFloat.to_frac, hundredths.
  destruct (Z.leb_spec 0 e) as [He | He]; apply Z.leb_le.
  - lia.
  - pose proof (Z.pow_pos_nonneg 2 (- e) ltac:(lia) ltac:(lia)) as Hq.
    pose proof (round_half_even_near (100 * Z.pos m) (2 ^ (- e)) Hq). lia.
Qed.

(** Up to 100 hundredths the answer has one digit before the point. *)
Lemma two_decimals_small (n : Z) :
  0 <= n <= 100 ->
  two_decimals false n
  = [digit (n / 100); 46%N; digit (n mod 100 / 10); digit (n mod 10)].
Proof.
  intros Hn. unfold two_decimals.
  assert (Hd : n / 100 = 0 \/ n / 100 = 1).
  { pose proof (Z.div_mod n 100 ltac:(lia)).
    pose proof (Z.mod_pos_bound n 100 ltac:(lia)). lia. }
  destruct Hd as [-> | ->]; reflexivity.
Qed.

Section MainExtras.
Variable unicode_isalnum unicode_isspace : codepoint -> bool.
Variable jieba_state : Type.
Variable jieba_cut : pystr -> jieba_state -> list pystr * jieba_state.
Variable read_response : list event -> pystr -> pystr + pystr.
Variable write_response : list event -> pystr -> pystr -> option pystr.

Local Abbreviation preprocess :=
  (preprocess_text unicode_isalnum unicode_isspace jieba_cut).
Local Abbreviation similarity :=
  (calculate_similarity unicode_isalnum unicode_isspace jieba_cut).
Local Abbreviation content := (py_strip unicode_isspace).
Local Abbreviation run :=
  (main unicode_isalnum unicode_isspace jieba_cut read_response write_response).

(** The run once both files are read and the score is computed. *)
Lemma main_success (prog original_file copied_file output_file : pystr)
    (st : jieba_state) (trace : list event) (original copied : pystr)
    (f : PyFloat.t) :
  read_response trace original_file = inl original ->
  read_response (trace ++ [OpenRead original_file]) copied_file = inl copied ->
  (similarity (content original) (content copied) st).1 = Ok f ->
  run [prog; original_file; copied_file; output_file] st trace
  = let read := trace ++ [OpenRead original_file; OpenRead copied_file] in
    let st' := (similarity (content original) (content copied) st).2 in
    match write_response read output_file (format_2f f) with
    | None => (Return tt, read ++ [OpenWrite output_file (format_2f f)], st')
    | Some e =>
        (SystemExit 1,
         read ++ [OpenWrite output_file (format_2f f); Print (ErrorWriting e)],
         st')
    end.
Proof.
  intros Ho Hc Hf. unfold main, read_file. rewrite Ho, Hc.
  destruct (similarity (content original) (content copied) st) as [s st'].
  cbn [fst snd] in *. subst s. cbv zeta.
  by rewrite <- (app_assoc trace [OpenRead original_file] [OpenRead copied_file]).
Qed.

(** The run once both files are read and the score computation raises. *)
Lemma main_raise (prog original_file copied_file output_file : pystr)
    (st : jieba_state) (trace : list event) (original copied : pystr)
    (e : exn) :
  read_response trace original_file = inl original ->
  read_response (trace ++ [OpenRead original_file]) copied_file = inl copied ->
  (similarity (content original) (content copied) st).1 = Raise e ->
  run [prog; original_file; copied_file; output_file] st trace
  = (Uncaught e, trace ++ [OpenRead original_file; OpenRead copied_file],
     (similarity (content original) (content copied) st).2).
Proof.
  intros Ho Hc Hf. unfold main, read_file. rewrite Ho, Hc.
  destruct (similarity (content original) (content copied) st) as [s st'].
  cbn [fst snd] in *. subst s.
  by rewrite <- (app_assoc trace [OpenRead original_file] [OpenRead copied_file]).
Qed.

(** The run when [len(sys.argv) != 4]. *)
Lemma wrong_arity (argv : list pystr) (st : jieba_state) (trace : list event) :
  length argv <> 4%nat ->
  run argv st trace = (SystemExit 1, trace ++ [Print Usage], st).
Proof.
  intros Hlen.
  destruct argv as [|a0 [|a1 [|a2 [|a3 [|a4 argv]]]]]; try done.
Qed.

(** X12. With a number of command-line arguments other than three the
    program prints the usage line and exits with status 1; it opens no
    file and does not run the tokenizer. *)
Theorem main_usage (argv : list pystr) (st : jieba_state) (trace : list event) :
  length argv <> 4%nat ->
  run argv st trace = (SystemExit 1, trace ++ [Print Usage], st).
Proof.
  intros Hlen.
  destruct argv as [|a0 [|a1 [|a2 [|a3 [|a4 argv]]]]]; try done.
Qed.

(** X13. A normal return means the answer was written: [main] returns only
    when it was given three arguments, both files were read, the score was
    computed, and the formatted score was written to the output file
    without an error. Nothing else was done to a file by [main] itself. *)
Theorem main_returns_only_after_write (argv : list pystr) (st : jieba_state)
    (trace : list event) :
  (run argv st trace).1.1 = Return tt ->
  exists prog original_file copied_file output_file original copied f,
    argv = [prog; original_file; copied_file; output_file]
    /\ read_response trace original_file = inl original
    /\ read_response (trace ++ [OpenRead original_file]) copied_file
       = inl copied
    /\ (similarity (content original) (content copied) st).1 = Ok f
    /\ write_response (trace ++ [OpenRead original_file; OpenRead copied_file])
         output_file (format_2f f) = None
    /\ (run argv st trace).1.2
       = trace ++ [OpenRead original_file; OpenRead copied_file;
                   OpenWrite output_file (format_2f f)].
Proof.
  destruct (decide (length argv = 4%nat)) as [Hlen | Hlen];
    [|by rewrite (wrong_arity argv st trace Hlen)].
  destruct argv as [|a0 [|a1 [|a2 [|a3 [|a4 argv]]]]]; try done.
  destruct (read_response trace a1) as [original | e1] eqn:Ho;
    [|unfold main, read_file; by rewrite Ho].
  destruct (read_response (trace ++ [OpenRead a1]) a2) as [copied | e2] eqn:Hc;
    [|unfold main, read_file; by rewrite Ho, Hc].
  destruct ((similarity (content original) (content copied) st).1)
    as [f | e] eqn:Hs;
    [|by rewrite (main_raise a0 a1 a2 a3 st trace original copied e Ho Hc Hs)].
  rewrite (main_success a0 a1 a2 a3 st trace original copied f Ho Hc Hs).
  cbv zeta.
  destruct (write_response (trace ++ [OpenRead a1; OpenRead a2]) a3
              (format_2f f)) as [e|] eqn:Hw; [done|].
  intros _. exists a0, a1, a2, a3, original, copied, f.
  cbn [fst snd]. rewrite <- app_assoc. done.
Qed.

(** What is done once both files are read and the score is a float: the
    formatted score is written to the output file, and the run returns, or
    prints the error and exits with status 1 when the write fails. *)
Lemma main_answer (prog original_file copied_file output_file : pystr)
    (st : jieba_state) (trace : list event) (original copied : pystr)
    (f : PyFloat.t) :
  read_response trace original_file = inl original ->
  read_response (trace ++ [OpenRead original_file]) copied_file = inl copied ->
  (similarity (content original) (content copied) st).1 = Ok f ->
  exists tail,
    (run [prog; original_file; copied_file; output_file] st trace).1.2
    = trace ++ [OpenRead original_file; OpenRead copied_file;
                OpenWrite output_file (format_2f f)] ++ tail
    /\ (((run [prog; original_file; copied_file; output_file] st trace).1.1
         = Return tt /\ tail = [])
        \/ ((run [prog; original_file; copied_file; output_file] st trace).1.1
            = SystemExit 1 /\ exists e, tail = [Print (ErrorWriting e)])).
Proof.
  intros Ho Hc Hs.
  rewrite (main_success prog original_file copied_file output_file st trace
             original copied f Ho Hc Hs). cbv zeta.
  destruct (write_response _ output_file (format_2f f)) as [e|]; cbn [fst snd].
  - exists [Print (ErrorWriting e)]. split; [by rewrite <- app_assoc|].
    right. eauto.
  - exists []. split; [by rewrite <- app_assoc|]. by left.
Qed.

(** X14. The order of [main]'s own file operations, its calls of [open]
    (what jieba does to its dictionary and cache files is not part of
    this): they are added to what has happened before; the files [main]
    opens for reading are [argv[1]] and [argv[2]]; the file it opens for
    writing is [argv[3]], once, after both reads have succeeded, so an
    answer file is never overwritten by a run that could not read its
    input; after the write it at most prints the write error. *)
Theorem main_file_operations (argv : list pystr) (st : jieba_state)
    (trace : list event) :
  exists events,
    (run argv st trace).1.2 = trace ++ events
    /\ (forall file_path, OpenRead file_path ∈ events ->
          argv !! 1%nat = Some file_path \/ argv !! 2%nat = Some file_path)
    /\ (forall output_file text, OpenWrite output_file text ∈ events ->
          argv !! 3%nat = Some output_file
          /\ exists original_file copied_file tail,
               events = [OpenRead original_file; OpenRead copied_file;
                         OpenWrite output_file text] ++ tail
               /\ argv !! 1%nat = Some original_file
               /\ argv !! 2%nat = Some copied_file
               /\ (tail = [] \/ exists e, tail = [Print (ErrorWriting e)])).
Proof.
  destruct (decide (length argv = 4%nat)) as [Hlen | Hlen].
  2:{ rewrite (wrong_arity argv st trace Hlen). exists [Print Usage].
      split; [done|]. split; intros *; rewrite list_elem_of_singleton; done. }
  destruct argv as [|a0 [|a1 [|a2 [|a3 [|a4 argv]]]]]; try done.
  destruct (read_response trace a1) as [original | e1] eqn:Ho.
  2:{ unfold main, read_file. rewrite Ho.
      exists [OpenRead a1; Print (ErrorReading a1 e1)].
      split; [done|].
      split; intros *; rewrite !elem_of_cons, elem_of_nil;
        intros [[=] | [[=] | []]]; subst; by left. }
  destruct (read_response (trace ++ [OpenRead a1]) a2) as [copied | e2] eqn:Hc.
  2:{ unfold main, read_file. rewrite Ho, Hc.
      exists [OpenRead a1; OpenRead a2; Print (ErrorReading a2 e2)].
      split; [by rewrite <- app_assoc|].
      split; intros *; rewrite !elem_of_cons, elem_of_nil;
        intros [[=] | [[=] | [[=] | []]]]; subst; by eauto. }
  destruct ((similarity (content original) (content copied) st).1)
    as [f | e] eqn:Hs.
  - destruct (main_answer a0 a1 a2 a3 st trace original copied f Ho Hc Hs)
      as (tail & -> & Htail).
    exists ([OpenRead a1; OpenRead a2; OpenWrite a3 (format_2f f)] ++ tail).
    split; [done|].
    assert (Hshape : tail = [] \/ exists e, tail = [Print (ErrorWriting e)]).
    { destruct Htail as [[_ ->] | [_ [e ->]]]; eauto. }
    split; intros *; rewrite elem_of_app, !elem_of_cons, elem_of_nil.
    + intros [[[=] | [[=] | [[=] | []]]] | Hin]; subst; eauto.
      destruct Hshape as [-> | [e ->]]; [by apply elem_of_nil in Hin|].
      by apply list_elem_of_singleton in Hin.
    + intros [[[=] | [[=] | [[=] | []]]] | Hin]; subst.
      * split; [done|]. exists a1, a2, tail. done.
      * destruct Hshape as [-> | [e ->]]; [by apply elem_of_nil in Hin|].
        by apply list_elem_of_singleton in Hin.
  - rewrite (main_raise a0 a1 a2 a3 st trace original copied e Ho Hc Hs).
    exists [OpenRead a1; OpenRead a2]. split; [done|].
    split; intros *; rewrite !elem_of_cons, elem_of_nil;
      intros [[=] | [[=] | []]]; subst; by eauto.
Qed.

(** The text of a score in the range: its nearest hundredths, with one
    digit before the point. *)
Lemma format_score (f : PyFloat.t) :
  at_most f (2 ^ 49 + 1) (2 ^ 49) = true ->
  f = PyFloat.zero \/ (exists m e, f = S754_finite false m e) ->
  exists n, 0 <= n <= 100
    /\ nearest_hundredth f n = true
    /\ format_2f f
       = [digit (n / 100); 46%N; digit (n mod 100 / 10); digit (n mod 10)].
Proof.
  intros Hle [-> | (m & e & ->)].
  - exists 0. split; [lia|]. split; reflexivity.
  - exists (hundredths (S754_finite false m e)).
    pose proof (hundredths_at_most m e Hle) as Hn. split; [done|].
    split; [apply hundredths_near|].
    by apply two_decimals_small.
Qed.

(** X15. When both files are read and neither has more than [sys.maxsize]
    tokens, the score [f] of the two contents is computed and the run makes
    exactly these file operations: it reads the original, reads the copy,
    and writes to the output file a text of four characters, a digit, a
    point and two digits, that reads [n] hundredths, where [n] is between 0
    and 100 and [n/100] is a two-decimal value nearest to [f]: the score
    rounded to two decimals, from 0.00 to 1.00. It then returns, or prints
    the error and exits with status 1 if that write failed. *)
Theorem main_writes_score (prog original_file copied_file output_file : pystr)
    (st : jieba_state) (trace : list event) (original copied : pystr) :
  let original_words := (preprocess (content original) st).1 in
  let copied_words :=
    (preprocess (content copied) (preprocess (content original) st).2).1 in
  read_response trace original_file = inl original ->
  read_response (trace ++ [OpenRead original_file]) copied_file = inl copied ->
  Z.of_nat (length original_words) <= sys_maxsize ->
  Z.of_nat (length copied_words) <= sys_maxsize ->
  exists f n tail,
    (similarity (content original) (content copied) st).1 = Ok f
    /\ 0 <= n <= 100
    /\ nearest_hundredth f n = true
    /\ format_2f f
       = [digit (n / 100); 46%N; digit (n mod 100 / 10); digit (n mod 10)]
    /\ (run [prog; original_file; copied_file; output_file] st trace).1.2
       = trace ++ [OpenRead original_file; OpenRead copied_file;
                   OpenWrite output_file
                     [digit (n / 100); 46%N; digit (n mod 100 / 10);
                      digit (n mod 10)]] ++ tail
    /\ (((run [prog; original_file; copied_file; output_file] st trace).1.1
         = Return tt /\ tail = [])
        \/ ((run [prog; original_file; copied_file; output_file] st trace).1.1
            = SystemExit 1 /\ exists e, tail = [Print (ErrorWriting e)])).
Proof.
  intros ow cw Ho Hc How Hcw.
  assert (Hs : exists f,
    (similarity (content original) (content copied) st).1 = Ok f
    /\ at_most f (2 ^ 49 + 1) (2 ^ 49) = true
    /\ (f = PyFloat.zero \/ exists m e, f = S754_finite false m e)).
  { rewrite similarity_unfold. cbn [fst]. fold ow cw.
    destruct (token_score ow cw How Hcw)
      as [[_ ->] | [_ (m & e & -> & Hle)]]; eauto 8. }
  destruct Hs as (f & Hs & Hle & Hf).
  destruct (format_score f Hle Hf) as (n & Hn & Hnear & Htext).
  destruct (main_answer prog original_file copied_file output_file st trace
              original copied f Ho Hc Hs) as (tail & Htrace & Hout).
  exists f, n, tail. rewrite <- Htext. done.
Qed.

(** X16. With a fixed dictionary, two files with the same content, which
    has a token, get the answer [1.00]. *)
Theorem main_identical_files
    (prog original_file copied_file output_file : pystr)
    (st : jieba_state) (trace : list event) (original copied : pystr) :
  fixed_dictionary jieba_cut ->
  read_response trace original_file = inl original ->
  read_response (trace ++ [OpenRead original_file]) copied_file = inl copied ->
  content original = content copied ->
  (preprocess (content original) st).1 <> [] ->
  Z.of_nat (length (preprocess (content original) st).1) <= sys_maxsize ->
  exists tail,
    (run [prog; original_file; copied_file; output_file] st trace).1.2
    = trace ++ [OpenRead original_file; OpenRead copied_file;
                OpenWrite output_file [49; 46; 48; 48]%N] ++ tail
    /\ (((run [prog; original_file; copied_file; output_file] st trace).1.1
         = Return tt /\ tail = [])
        \/ ((run [prog; original_file; copied_file; output_file] st trace).1.1
            = SystemExit 1 /\ exists e, tail = [Print (ErrorWriting e)])).
Proof.
  intros Hfixed Ho Hc Hsame Hne Hlen.
  assert (Hs : exists m e,
    (similarity (content original) (content copied) st).1
      = Ok (S754_finite false m e)
    /\ within (S754_finite false m e) 1 1 49 = true).
  { rewrite <- Hsame.
    rewrite (similarity_fixed _ _ _ jieba_cut _ _ st st st Hfixed).
    by apply self_score. }
  destruct Hs as (m & e & Hs & Hw).
  destruct (main_answer prog original_file copied_file output_file st trace
              original copied _ Ho Hc Hs) as (tail & Htrace & Hout).
  exists tail. split; [|done]. rewrite Htrace.
  cbn [format_2f]. by rewrite (hundredths_within m e Hw).
Qed.

(** X17. Two files of at most [sys.maxsize] tokens each and without a token
    in common get the answer [0.00]; so does any pair of which one file has
    no token at all. *)
Theorem main_nothing_in_common
    (prog original_file copied_file output_file : pystr)
    (st : jieba_state) (trace : list event) (original copied : pystr) :
  let original_words := (preprocess (content original) st).1 in
  let copied_words :=
    (preprocess (content copied) (preprocess (content original) st).2).1 in
  read_response trace original_file = inl original ->
  read_response (trace ++ [OpenRead original_file]) copied_file = inl copied ->
  Z.of_nat (length original_words) <= sys_maxsize ->
  Z.of_nat (length copied_words) <= sys_maxsize ->
  (forall w, w ∈ original_words -> w ∉ copied_words) ->
  exists tail,
    (run [prog; original_file; copied_file; output_file] st trace).1.2
    = trace ++ [OpenRead original_file; OpenRead copied_file;
                OpenWrite output_file [48; 46; 48; 48]%N] ++ tail
    /\ (((run [prog; original_file; copied_file; output_file] st trace).1.1
         = Return tt /\ tail = [])
        \/ ((run [prog; original_file; copied_file; output_file] st trace).1.1
            = SystemExit 1 /\ exists e, tail = [Print (ErrorWriting e)])).
Proof.
  intros ow cw Ho Hc How Hcw Hno.
  assert (Hs : (similarity (content original) (content copied) st).1
               = Ok PyFloat.zero).
  { rewrite similarity_unfold. cbn [fst]. fold ow cw.
    destruct (token_score ow cw How Hcw)
      as [[_ ->] | [(w & Hw1 & Hw2) _]]; [done|].
    by destruct (Hno w Hw1). }
  exact (main_answer prog original_file copied_file output_file st trace
           original copied _ Ho Hc Hs).
Qed.

(** X18. A file that cannot be read ends the run at once: the program
    prints the error naming that file and exits with status 1. The copy is
    not opened when the original cannot be read; in both cases the
    tokenizer is not run and nothing is written. *)
Theorem main_unreadable_file
    (prog original_file copied_file output_file : pystr)
    (st : jieba_state) (trace : list event) :
  (forall e, read_response trace original_file = inr e ->
     run [prog; original_file; copied_file; output_file] st trace
     = (SystemExit 1,
        trace ++ [OpenRead original_file;
                  Print (ErrorReading original_file e)], st))
  /\ (forall original e,
        read_response trace original_file = inl original ->
        read_response (trace ++ [OpenRead original_file]) copied_file = inr e ->
        run [prog; original_file; copied_file; output_file] st trace
        = (SystemExit 1,
           trace ++ [OpenRead original_file; OpenRead copied_file;
                     Print (ErrorReading copied_file e)], st)).
Proof.
  split.
  - intros e Ho. unfold main, read_file. by rewrite Ho.
  - intros original e Ho Hc. unfold main, read_file. rewrite Ho, Hc.
    by rewrite <- app_assoc.
Qed.

End MainExtras.

(** *** The command line on the small environment *)

Lemma main_usage_witness :
  main demo_isalnum demo_isspace char_cut demo_read demo_write
    [[109%N]; [97%N]; [98%N]] 0%nat []
  = (SystemExit 1, [] ++ [Print Usage], 0%nat).
Proof. apply main_usage. simpl. lia. Defined.

Lemma main_returns_only_after_write_witness :
  exists prog original_file copied_file output_file original copied f,
    [[109%N]; [97%N]; [99%N]; [111%N]]
    = [prog; original_file; copied_file; output_file]
    /\ demo_read [] original_file = inl original
    /\ demo_read ([] ++ [OpenRead original_file]) copied_file = inl copied
    /\ (calculate_similarity demo_isalnum demo_isspace char_cut
          (py_strip demo_isspace original) (py_strip demo_isspace copied)
          0%nat).1 = Ok f
    /\ demo_write ([] ++ [OpenRead original_file; OpenRead copied_file])
         output_file (format_2f f) = None
    /\ (main demo_isalnum demo_isspace char_cut demo_read demo_write
          [[109%N]; [97%N]; [99%N]; [111%N]] 0%nat []).1.2
       = [] ++ [OpenRead original_file; OpenRead copied_file;
                OpenWrite output_file (format_2f f)].
Proof.
  apply (main_returns_only_after_write demo_isalnum demo_isspace nat char_cut
           demo_read demo_write [[109%N]; [97%N]; [99%N]; [111%N]] 0%nat []).
  by vm_compute.
Defined.

Lemma main_writes_score_witness :
  exists f n tail,
    (calculate_similarity demo_isalnum demo_isspace char_cut
       (py_strip demo_isspace greeting_padded) (py_strip demo_isspace farewell)
       0%nat).1 = Ok f
    /\ 0 <= n <= 100
    /\ nearest_hundredth f n = true
    /\ format_2f f
       = [digit (n / 100); 46%N; digit (n mod 100 / 10); digit (n mod 10)]
    /\ (main demo_isalnum demo_isspace char_cut demo_read demo_write
          [[109%N]; [97%N]; [99%N]; [111%N]] 0%nat []).1.2
       = [] ++ [OpenRead [97%N]; OpenRead [99%N];
                OpenWrite [111%N]
                  [digit (n / 100); 46%N; digit (n mod 100 / 10);
                   digit (n mod 10)]] ++ tail
    /\ (((main demo_isalnum demo_isspace char_cut demo_read demo_write
            [[109%N]; [97%N]; [99%N]; [111%N]] 0%nat []).1.1
         = Return tt /\ tail = [])
        \/ ((main demo_isalnum demo_isspace char_cut demo_read demo_write
               [[109%N]; [97%N]; [99%N]; [111%N]] 0%nat []).1.1
            = SystemExit 1 /\ exists e, tail = [Print (ErrorWriting e)])).
Proof.
  apply (main_writes_score demo_isalnum demo_isspace nat char_cut
           demo_read demo_write [109%N] [97%N] [99%N] [111%N] 0%nat []
           greeting_padded farewell).
  - reflexivity.
  - reflexivity.
  - by vm_compute.
  - by vm_compute.
Defined.

Lemma main_identical_files_witness :
  exists tail,
    (main demo_isalnum demo_isspace char_cut demo_read demo_write
       [[109%N]; [97%N]; [98%N]; [111%N]] 0%nat []).1.2
    = [] ++ [OpenRead [97%N]; OpenRead [98%N];
             OpenWrite [111%N] [49; 46; 48; 48]%N] ++ tail
    /\ (((main demo_isalnum demo_isspace char_cut demo_read demo_write
            [[109%N]; [97%N]; [98%N]; [111%N]] 0%nat []).1.1
         = Return tt /\ tail = [])
        \/ ((main demo_isalnum demo_isspace char_cut demo_read demo_write
               [[109%N]; [97%N]; [98%N]; [111%N]] 0%nat []).1.1
            = SystemExit 1 /\ exists e, tail = [Print (ErrorWriting e)])).
Proof.
  apply (main_identical_files demo_isalnum demo_isspace nat char_cut
           demo_read demo_write [109%N] [97%N] [98%N] [111%N] 0%nat []
           greeting_padded greeting).
  - exact char_cut_fixed_dictionary.
  - reflexivity.
  - reflexivity.
  - reflexivity.
  - by vm_compute.
  - by vm_compute.
Defined.

Lemma main_nothing_in_common_witness :
  exists tail,
    (main demo_isalnum demo_isspace char_cut demo_read demo_write
       [[109%N]; [97%N]; [99%N]; [111%N]] 0%nat []).1.2
    = [] ++ [OpenRead [97%N]; OpenRead [99%N];
             OpenWrite [111%N] [48; 46; 48; 48]%N] ++ tail
    /\ (((main demo_isalnum demo_isspace char_cut demo_read demo_write
            [[109%N]; [97%N]; [99%N]; [111%N]] 0%nat []).1.1
         = Return tt /\ tail = [])
        \/ ((main demo_isalnum demo_isspace char_cut demo_read demo_write
               [[109%N]; [97%N]; [99%N]; [111%N]] 0%nat []).1.1
            = SystemExit 1 /\ exists e, tail = [Print (ErrorWriting e)])).
Proof.
  apply (main_nothing_in_common demo_isalnum demo_isspace nat char_cut
           demo_read demo_write [109%N] [97%N] [99%N] [111%N] 0%nat []
           greeting_padded farewell).
  - reflexivity.
  - reflexivity.
  - by vm_compute.
  - by vm_compute.
  - apply Forall_forall. apply (bool_decide_unpack _). by vm_compute.
Defined.

Lemma main_unreadable_file_witness :
  main demo_isalnum demo_isspace char_cut demo_read demo_write
    [[109%N]; [97%N]; [122%N]; [111%N]] 0%nat []
  = (SystemExit 1,
     [] ++ [OpenRead [97%N]; OpenRead [122%N];
            Print (ErrorReading [122%N] [69; 78; 79; 69; 78; 84]%N)], 0%nat).
Proof.
  apply (proj2 (main_unreadable_file demo_isalnum demo_isspace nat char_cut
                  demo_read demo_write [109%N] [97%N] [122%N] [111%N] 0%nat [])
           greeting_padded).
  - reflexivity.
  - reflexivity.
Defined.
